(** * anki/notes.py: the [Note] entity, embedded and verified

    A shallow embedding of [anki.notes.Note]: the in-memory note, the
    three tables of the deck's database it talks to ([notes], [nsums],
    [cards]), and the methods [__init__], [load], [flush],
    [updateFieldChecksums], the dict interface, the tag operations, the
    uniqueness and completeness checks, [problems] and the two cloze
    hooks.

    Python exceptions are values: a method returns an [outcome], and a
    method that mutates [self] or the deck is a state transformer that
    hands back the state reached when the exception was raised. *)

From Stdlib Require Import ZArith String Ascii List Permutation Sorted Lia.
From stdpp Require Import base option list sorting strings gmap fin_maps.

Local Open Scope string_scope.
Local Open Scope list_scope.
Local Open Scope Z_scope.

(** ** Exceptions and outcomes *)

(** The exceptions the module can raise, by their Python class.
    [Exception msg] is the bare [raise Exception(msg)] of the cloze
    pre-flush hook. *)
Inductive exn : Type :=
| AssertionError
| TypeError
| AttributeError
| KeyError (key : string)
| IndexError
| ValueError
| Exception (msg : string).

Inductive outcome (A : Type) : Type :=
| Ret (a : A)
| Raise (e : exn).
Arguments Ret {A} a.
Arguments Raise {A} e.

#[global] Instance outcome_ret : MRet outcome := λ A a, Ret a.
#[global] Instance outcome_bind : MBind outcome := λ A B f m,
  match m with
  | Ret a => f a
  | Raise e => Raise e
  end.

#[global] Instance exn_eq_dec : EqDecision exn.
Proof. solve_decision. Defined.

(** Python truthiness of the values the module tests. *)
Definition truthy_int (z : Z) : bool := negb (z =? 0).
Definition truthy_str (s : string) : bool :=
  match s with EmptyString => false | String _ _ => true end.
Definition truthy_opt {A} (t : A → bool) (o : option A) : bool :=
  match o with None => false | Some a => t a end.

(** Case folding of the ASCII letters: A to Z move to a to z, every
    other byte stays. *)
Definition ascii_lower (c : ascii) : ascii :=
  let n := nat_of_ascii c in
  if ((65 <=? n) && (n <=? 90))%nat then ascii_of_nat (n + 32) else c.

Fixpoint ascii_lower_str (s : string) : string :=
  match s with
  | EmptyString => EmptyString
  | String c r => String (ascii_lower c) (ascii_lower_str r)
  end.

Fixpoint is_ascii (s : string) : bool :=
  match s with
  | EmptyString => true
  | String c r => (nat_of_ascii c <? 128)%nat && is_ascii r
  end.

(** [t.lower()]. The tags are unicode strings, whose [lower()] folds
    every cased letter, not only A to Z; the method is a parameter, of
    which only this is known: on a string of ASCII characters it folds A
    to Z and leaves the rest. *)
Class Casing : Type := {
  lower : string → string;
  lower_ascii : ∀ s, is_ascii s = true → lower s = ascii_lower_str s
}.

(** [list.remove(x)]: drops the first element equal to [x], raises
    [ValueError] when there is none. *)
Fixpoint list_remove_first (x : string) (l : list string) : outcome (list string) :=
  match l with
  | [] => Raise ValueError
  | y :: l' =>
      if String.eqb y x then Ret l'
      else l'' ← list_remove_first x l'; Ret (y :: l'')
  end.

(** [l[i]] on a Python list with a non-negative index. *)
Definition getindex {A} (l : list A) (i : nat) : outcome A :=
  match l !! i with
  | Some a => Ret a
  | None => Raise IndexError
  end.

(** ** Data model *)

(** One entry of [model['flds']]; only the keys this module reads. *)
Record Field : Type := mkField {
  f_name : string;
  f_uniq : bool;
  f_req : bool
}.

(** A model (template set) dict; only the keys this module reads. *)
Record Model : Type := mkModel {
  m_id : Z;
  m_gid : Z;
  m_flds : list Field;
  m_cloze : bool
}.

(** A template dict as returned by [deck.findTemplates]. *)
Record Template : Type := mkTemplate { t_ord : Z }.

(** [_fmap]: field name to (ordinal, field definition). *)
Abbreviation FieldMap := (gmap string (nat * Field)).

(** A row of [notes] without its primary key [id], in column order. *)
Record NoteRow : Type := mkNoteRow {
  r_guid : string;
  r_mid : Z;
  r_gid : Z;
  r_mod : Z;
  r_usn : Z;
  r_tags : string;
  r_flds : string;
  r_sfld : string;
  r_flags : Z;
  r_data : string
}.

(** A row of [cards]; only the columns this module reads. *)
Record CardRow : Type := mkCardRow {
  c_id : Z;
  c_nid : Z;
  c_ord : Z
}.

(** A row of [nsums]: (nid, mid, csum). The table has no key, so it is a
    list and a row may repeat. *)
Abbreviation NsumRow := (Z * Z * Z)%type.
Definition s_nid (r : NsumRow) : Z := r.1.1.
Definition s_mid (r : NsumRow) : Z := r.1.2.
Definition s_csum (r : NsumRow) : Z := r.2.

(** Modelled from the spec: the storage container of section 6. [notes]
    is keyed by the note id (insert-or-replace semantics keyed by id),
    [nsums] holds the secondary index rows, [cards] the derived cards. *)
Record DB : Type := mkDB {
  notes : gmap Z NoteRow;
  nsums : list NsumRow;
  cards : list CardRow
}.

(** Modelled from the spec: the deck (collection) the note lives in, as
    far as this module touches it: the database, the update-sequence
    counter returned by [deck.usn()], and the calls received by the tag
    registry ([deck.tags.register]) and by the card generator
    ([deck.genCards]), oldest first. *)
Record Deck : Type := mkDeck {
  db : DB;
  deck_usn : Z;
  registered : list (list string);
  genCards_calls : list (list Z)
}.

(** The attributes of a [Note] object. [n_mod] and [n_usn] are absent
    until [load] or [flush] assigns them, [n_newlyAdded] until the cloze
    pre-flush hook does. *)
Record Note : Type := mkNote {
  n_id : Z;
  n_guid : string;
  n_mid : Z;
  n_gid : Z;
  n_mod : option Z;
  n_usn : option Z;
  n_tags : list string;
  n_fields : list string;
  n_flags : Z;
  n_data : string;
  n_model : Model;
  n_fmap : FieldMap;
  n_newlyAdded : option bool
}.

(** Modelled from the spec: the collaborators of section 6 that live in
    other modules ([anki.utils], [deck.tags], [deck.models],
    [deck.findTemplates], [deck.genCards]). [intTime] and [guid64] stand
    for the value the clock and the generator return during the call at
    hand. [genCards_cards] is the [cards] table as [deck.genCards] leaves
    it: the card generator writes cards and no other table. *)
Class Collaborators : Type := {
  fieldChecksum : string → Z;
  stripHTML : string → string;
  joinFields : list string → string;
  splitFields : string → list string;
  intTime : Z;
  timestampID : DB → string → Z;
  guid64 : string;
  tags_split : string → list string;
  tags_join : list string → string;
  tags_canonify : list string → list string;
  models_get : Z → Model;
  models_fieldMap : Model → FieldMap;
  models_sortIdx : Model → nat;
  findTemplates : Deck → Note → list Template;
  genCards_cards : Deck → list Z → list CardRow
}.

(** ** Attribute assignment *)

Definition set_id (v : Z) (n : Note) : Note :=
  mkNote v (n_guid n) (n_mid n) (n_gid n) (n_mod n) (n_usn n) (n_tags n)
         (n_fields n) (n_flags n) (n_data n) (n_model n) (n_fmap n) (n_newlyAdded n).
Definition set_mod (v : Z) (n : Note) : Note :=
  mkNote (n_id n) (n_guid n) (n_mid n) (n_gid n) (Some v) (n_usn n) (n_tags n)
         (n_fields n) (n_flags n) (n_data n) (n_model n) (n_fmap n) (n_newlyAdded n).
Definition set_usn (v : Z) (n : Note) : Note :=
  mkNote (n_id n) (n_guid n) (n_mid n) (n_gid n) (n_mod n) (Some v) (n_tags n)
         (n_fields n) (n_flags n) (n_data n) (n_model n) (n_fmap n) (n_newlyAdded n).
Definition set_tags (v : list string) (n : Note) : Note :=
  mkNote (n_id n) (n_guid n) (n_mid n) (n_gid n) (n_mod n) (n_usn n) v
         (n_fields n) (n_flags n) (n_data n) (n_model n) (n_fmap n) (n_newlyAdded n).
Definition set_fields (v : list string) (n : Note) : Note :=
  mkNote (n_id n) (n_guid n) (n_mid n) (n_gid n) (n_mod n) (n_usn n) (n_tags n)
         v (n_flags n) (n_data n) (n_model n) (n_fmap n) (n_newlyAdded n).
Definition set_newlyAdded (v : bool) (n : Note) : Note :=
  mkNote (n_id n) (n_guid n) (n_mid n) (n_gid n) (n_mod n) (n_usn n) (n_tags n)
         (n_fields n) (n_flags n) (n_data n) (n_model n) (n_fmap n) (Some v).

Definition set_db (v : DB) (d : Deck) : Deck :=
  mkDeck v (deck_usn d) (registered d) (genCards_calls d).
Definition set_nsums (v : list NsumRow) (b : DB) : DB :=
  mkDB (notes b) v (cards b).
Definition set_cards (v : list CardRow) (b : DB) : DB :=
  mkDB (notes b) (nsums b) v.
Definition set_notes (v : gmap Z NoteRow) (b : DB) : DB :=
  mkDB v (nsums b) (cards b).

(** ** The state a method runs in *)

(** [self] and the deck it points to. *)
Record World : Type := mkWorld {
  deck : Deck;
  self : Note
}.

(** A method that may mutate [self] or the deck and may raise: it returns
    its outcome together with the state it leaves behind. *)
Definition M (A : Type) : Type := World → outcome A * World.

#[global] Instance M_ret : MRet M := λ A a w, (Ret a, w).
#[global] Instance M_bind : MBind M := λ A B f m w,
  match m w with
  | (Ret a, w') => f a w'
  | (Raise e, w') => (Raise e, w')
  end.

Definition get_self : M Note := λ w, (Ret (self w), w).
Definition get_deck : M Deck := λ w, (Ret (deck w), w).
Definition modify_self (f : Note → Note) : M unit :=
  λ w, (Ret tt, mkWorld (deck w) (f (self w))).
Definition modify_deck (f : Deck → Deck) : M unit :=
  λ w, (Ret tt, mkWorld (f (deck w)) (self w)).
Definition lift {A} (o : outcome A) : M A := λ w, (o, w).

(** [for x in l: body(x)]. *)
Fixpoint for_each {A} (l : list A) (body : A → M unit) : M unit :=
  match l with
  | [] => mret tt
  | x :: l' => body x;; for_each l' body
  end.

(** ** Queries *)

(* The SQL statements of the module, read over the tables above. *)

(** [select ... from notes where id = ?] through [db.first]: the row, or
    [None] when there is none. *)
Definition select_note (b : DB) (id : Z) : option NoteRow := notes b !! id.

(** [select 1 from cards where nid = ?] through [db.scalar], as a truth
    value. *)
Definition has_cards (b : DB) (nid : Z) : bool :=
  existsb (λ c, c_nid c =? nid) (cards b).

(** [select 1 from cards where nid = ? and ord not in ok] through
    [db.scalar], as a truth value. *)
Definition has_card_outside (b : DB) (nid : Z) (ok : list Z) : bool :=
  existsb (λ c, (c_nid c =? nid) && negb (bool_decide (c_ord c ∈ ok))) (cards b).

(** [select nid from nsums where csum = ? and nid != ? and mid = ?]. *)
Definition select_nids (b : DB) (csum nid mid : Z) : list Z :=
  s_nid <$> filter (λ r, s_csum r = csum ∧ s_nid r ≠ nid ∧ s_mid r = mid) (nsums b).

(** The order of the rows of [notes] by their key. *)
Definition id_le (x y : Z * NoteRow) : Prop := x.1 ≤ y.1.

#[global] Instance id_le_dec x y : Decision (id_le x y).
Proof. unfold id_le. apply _. Defined.

(** [select flds from notes where id in nids]: the rows come in
    ascending id, the order in which sqlite walks the primary key. *)
Definition select_flds (b : DB) (nids : list Z) : list string :=
  (λ p, r_flds p.2) <$>
  merge_sort id_le (filter (λ p, p.1 ∈ nids) (map_to_list (notes b))).

(** [delete from nsums where nid = ?]. *)
Definition delete_nsums (nid : Z) (b : DB) : DB :=
  set_nsums (filter (λ r, s_nid r ≠ nid) (nsums b)) b.

(** [insert into nsums values (?, ?, ?)] through [db.executemany]. *)
Definition insert_nsums (rows : list NsumRow) (b : DB) : DB :=
  set_nsums (nsums b ++ rows) b.

(** [insert or replace into notes values (...)]; the second component is
    the cursor's [lastrowid], the key of the row written. *)
Definition insert_or_replace_note (id : Z) (r : NoteRow) (b : DB) : DB * Z :=
  (set_notes (<[id := r]> (notes b)) b, id).

(** Every index row agrees on the template set with the stored note it
    points to, as [flush] writes them. *)
Definition nsums_consistent (b : DB) : bool :=
  forallb (λ r, match notes b !! s_nid r with
                | Some row => r_mid row =? s_mid r
                | None => true
                end) (nsums b).

(** What [fieldComplete] returns: [True] or the field's string. *)
Inductive bool_or_str : Type :=
| PyBool (b : bool)
| PyStr (s : string).

Definition truthy (v : bool_or_str) : bool :=
  match v with
  | PyBool b => b
  | PyStr s => truthy_str s
  end.

(** The order [sorted] uses on the tuples [(ord, kind)] of [problems]:
    by [ord], then by [kind] with [None] below every string. *)
Definition kind_leb (x y : option string) : bool :=
  match x, y with
  | None, _ => true
  | Some _, None => false
  | Some s, Some t => String.leb s t
  end.

Definition tuple_leb (x y : nat * option string) : bool :=
  (x.1 <? y.1)%nat || ((x.1 =? y.1)%nat && kind_leb x.2 y.2).

Definition tuple_le (x y : nat * option string) : Prop := tuple_leb x y = true.

#[global] Instance tuple_le_dec x y : Decision (tuple_le x y).
Proof. unfold tuple_le. apply _. Defined.

Definition sorted (d : list (nat * option string)) : list (nat * option string) :=
  merge_sort tuple_le d.

(** Python 2's order on dicts, which [sorted] falls back on in [items]
    when two tuples [(ord, field)] carry the same ordinal. It is total;
    nothing else about it is used. *)
Class DictOrder : Type := {
  dict_leb : Field → Field → bool;
  dict_leb_total : ∀ x y, dict_leb x y = true ∨ dict_leb y x = true
}.

(** ** The class [Note] *)

Module Note.
Section methods.
Context `{Collaborators} `{Casing}.

(** The object before any attribute but [id] is assigned; [load] assigns
    every other one except [newlyAdded] before it can be read. *)
Definition blank (id : Z) : Note :=
  mkNote id "" 0 0 None None [] [] 0 "" (mkModel 0 0 [] false) ∅ None.

Definition load : M unit := λ w,
  match select_note (db (deck w)) (n_id (self w)) with
  | None => (Raise TypeError, w)
  | Some r =>
      let m := models_get (r_mid r) in
      (Ret tt,
       mkWorld (deck w)
         (mkNote (n_id (self w)) (r_guid r) (r_mid r) (r_gid r)
                 (Some (r_mod r)) (Some (r_usn r))
                 (tags_split (r_tags r)) (splitFields (r_flds r))
                 (r_flags r) (r_data r)
                 m (models_fieldMap m) (n_newlyAdded (self w))))
  end.

(** The [else] branch of [__init__]: a fresh note bound to [model]. With
    [model=None] the subscript [model['gid']] raises. *)
Definition fresh (d : Deck) (model : option Model) : outcome Note :=
  let id := timestampID (db d) "notes" in
  let guid := guid64 in
  match model with
  | None => Raise TypeError
  | Some m =>
      Ret (mkNote id guid (m_id m) (m_gid m) None None
                  [] (replicate (length (m_flds m)) "")
                  0 "" m (models_fieldMap m) None)
  end.

(** [Note(deck, model, id)]. A model dict is never empty, so [Some m] is
    truthy; an id is truthy when it is not 0. *)
Definition __init__ (d : Deck) (model : option Model) (id : option Z)
  : outcome Note :=
  if truthy_opt (λ _, true) model && truthy_opt truthy_int id
  then Raise AssertionError
  else match id with
       | Some i =>
           if truthy_int i
           then match load (mkWorld d (blank i)) with
                | (Ret _, w) => Ret (self w)
                | (Raise e, _) => Raise e
                end
           else fresh d model
       | None => fresh d model
       end.

Definition model (self : Note) : Model := n_model self.

Definition joinedFields (self : Note) : string := joinFields (n_fields self).

Definition stringTags (self : Note) : string :=
  tags_join (tags_canonify (n_tags self)).

(** The loop of [updateFieldChecksums] over [_fmap.values()]: the rows to
    insert, in iteration order. *)
Fixpoint checksum_rows (self : Note) (vals : list (nat * Field))
  : outcome (list NsumRow) :=
  match vals with
  | [] => Ret []
  | (ord, conf) :: rest =>
      if negb (f_uniq conf) then checksum_rows self rest
      else
        val ← getindex (n_fields self) ord;
        if negb (truthy_str val) then checksum_rows self rest
        else
          d ← checksum_rows self rest;
          Ret ((n_id self, n_mid self, fieldChecksum val) :: d)
  end.

Definition updateFieldChecksums : M unit :=
  self ← get_self;
  modify_deck (λ d, set_db (delete_nsums (n_id self) (db d)) d);;
  d ← lift (checksum_rows self (snd <$> map_to_list (n_fmap self)));
  modify_deck (λ dk, set_db (insert_nsums d (db dk)) dk).

(** *** Dict interface *)

Definition _fieldOrd (self : Note) (key : string) : outcome nat :=
  match n_fmap self !! key with
  | Some v => Ret v.1
  | None => Raise (KeyError key)
  end.

Definition __getitem__ (self : Note) (key : string) : outcome string :=
  ord ← _fieldOrd self key;
  getindex (n_fields self) ord.

Definition __setitem__ (key value : string) : M unit :=
  self ← get_self;
  ord ← lift (_fieldOrd self key);
  if bool_decide (ord < length (n_fields self))%nat
  then modify_self (set_fields (<[ord := value]> (n_fields self)))
  else lift (Raise IndexError).

(** *** Tags *)

Definition setTagsFromStr (str : string) : M unit :=
  modify_self (set_tags (tags_split str)).

Definition delTag (tag : string) : M unit :=
  self ← get_self;
  let rem := filter (λ t, lower t = lower tag) (n_tags self) in
  for_each rem (λ r,
    self ← get_self;
    tags ← lift (list_remove_first r (n_tags self));
    modify_self (set_tags tags)).

Definition addTag (tag : string) : M unit :=
  self ← get_self;
  modify_self (set_tags (n_tags self ++ [tag])).

(** *** Unique/duplicate checks *)

(** The loop of [fieldUnique] over the candidates' field blobs. *)
Fixpoint scan_candidates (ord : nat) (val : string) (blobs : list string)
  : outcome bool :=
  match blobs with
  | [] => Ret true
  | flds :: rest =>
      f ← getindex (splitFields flds) ord;
      if String.eqb f val then Ret false
      else scan_candidates ord val rest
  end.

Definition fieldUnique (d : Deck) (self : Note) (name : string) : outcome bool :=
  match n_fmap self !! name with
  | None => Raise (KeyError name)
  | Some (ord, conf) =>
      if negb (f_uniq conf) then Ret true
      else
        val ← __getitem__ self name;
        if negb (truthy_str val) then Ret true
        else
          let csum := fieldChecksum val in
          let nids :=
            select_nids (db d) csum
                        (if truthy_int (n_id self) then n_id self else 0)
                        (n_mid self) in
          match nids with
          | [] => Ret true
          | _ => scan_candidates ord val (select_flds (db d) nids)
          end
  end.

Definition fieldComplete (self : Note) (name : string) : outcome bool_or_str :=
  match n_fmap self !! name with
  | None => Raise (KeyError name)
  | Some (ord, conf) =>
      if negb (f_req conf) then Ret (PyBool true)
      else v ← __getitem__ self name; Ret (PyStr v)
  end.

(** The body of the loop of [problems] for one item of [_fmap.items()]. *)
Definition problem (d : Deck) (self : Note) (item : string * (nat * Field))
  : outcome (nat * option string) :=
  let '(k, (ord, conf)) := item in
  u ← fieldUnique d self k;
  if negb u then Ret (ord, Some "unique")
  else
    c ← fieldComplete self k;
    if negb (truthy c) then Ret (ord, Some "required")
    else Ret (ord, None).

Definition problems (d : Deck) (self : Note) : outcome (list (option string)) :=
  d ← mapM (problem d self) (map_to_list (n_fmap self));
  Ret (snd <$> sorted d).

(** *** Flushing cloze notes *)

Definition _clozePreFlush : M unit :=
  self ← get_self;
  d ← get_deck;
  modify_self (set_newlyAdded (negb (has_cards (db d) (n_id self))));;
  self ← get_self;
  let tmpls := findTemplates d self in
  let ok := t_ord <$> tmpls in
  if has_card_outside (db d) (n_id self) ok
  then lift (Raise (Exception "UI should have deleted cloze"))
  else mret tt.

(** [deck.genCards(nids)]: the call is logged, and the [cards] table
    becomes what the generator makes of it. *)
Definition genCards (nids : list Z) (d : Deck) : Deck :=
  mkDeck (set_cards (genCards_cards d nids) (db d)) (deck_usn d) (registered d)
         (genCards_calls d ++ [nids]).

Definition tags_register (tags : list string) (d : Deck) : Deck :=
  mkDeck (db d) (deck_usn d) (registered d ++ [tags]) (genCards_calls d).

Definition _clozePostFlush : M unit :=
  self ← get_self;
  match n_newlyAdded self with
  | None => lift (Raise AttributeError)
  | Some newlyAdded =>
      if negb newlyAdded then modify_deck (genCards [n_id self])
      else mret tt
  end.

(** [flush(mod)]; the argument is [mod_] here, [mod] being reserved. *)
Definition flush (mod_ : option Z) : M unit :=
  self ← get_self;
  (if m_cloze (model self) then _clozePreFlush else mret tt);;
  let smod := match mod_ with
              | Some m => if truthy_int m then m else intTime
              | None => intTime
              end in
  modify_self (set_mod smod);;
  d ← get_deck;
  let susn := deck_usn d in
  modify_self (set_usn susn);;
  self ← get_self;
  f ← lift (getindex (n_fields self) (models_sortIdx (n_model self)));
  let sfld := stripHTML f in
  let tags := stringTags self in
  let '(b, lastrowid) :=
    insert_or_replace_note (n_id self)
      (mkNoteRow (n_guid self) (n_mid self) (n_gid self) smod susn tags
                 (joinedFields self) sfld (n_flags self) (n_data self))
      (db d) in
  modify_deck (set_db b);;
  modify_self (set_id lastrowid);;
  updateFieldChecksums;;
  self ← get_self;
  modify_deck (tags_register (n_tags self));;
  if m_cloze (model self) then _clozePostFlush else mret tt.

(** *** Notions the statements below are phrased with *)

(** The ordinals [_clozePreFlush] accepts: those of the templates
    [findTemplates] returns for the note. *)
Definition referenced_ords (w : World) : list Z :=
  t_ord <$> findTemplates (deck w)
              (set_newlyAdded (negb (has_cards (db (deck w)) (n_id (self w)))) (self w)).

(** Some card of the note has an ordinal the note no longer references. *)
Definition stale_card (w : World) : bool :=
  has_card_outside (db (deck w)) (n_id (self w)) (referenced_ords w).

(** The sort field is a position of [fields]. *)
Definition sort_in_range (n : Note) : bool :=
  bool_decide (models_sortIdx (n_model n) < length (n_fields n))%nat.

(** The note as [flush] leaves it once the pre-flush hook has passed. *)
Definition stamped (mod_ : option Z) (w : World) : Note :=
  set_usn (deck_usn (deck w))
    (set_mod (match mod_ with
              | Some m => if truthy_int m then m else intTime
              | None => intTime
              end)
       (if m_cloze (n_model (self w))
        then set_newlyAdded (negb (has_cards (db (deck w)) (n_id (self w)))) (self w)
        else self w)).

(** The row [flush] writes for the stamped note [n]. *)
Definition row_of (n : Note) (smod susn : Z) (f : string) : NoteRow :=
  mkNoteRow (n_guid n) (n_mid n) (n_gid n) smod susn (stringTags n)
            (joinedFields n) (stripHTML f) (n_flags n) (n_data n).

(** What the index has to hold for a note, in the words of section 4.2:
    one row (noteId, templateSetId, checksum) per field definition marked
    unique whose value is non-empty. *)
Definition index_rows (n : Note) : list NsumRow :=
  (λ v, (n_id n, n_mid n, fieldChecksum (n_fields n !!! v.1))) <$>
  filter (λ v, f_uniq v.2 = true ∧ n_fields n !!! v.1 ≠ "")
         (snd <$> map_to_list (n_fmap n)).

(** Every stored note that the index lists under this note's template
    set has a field at each ordinal of the field map. *)
Definition candidates_readable (b : DB) (n : Note) : bool :=
  forallb (λ r,
    if s_mid r =? n_mid n
    then match notes b !! s_nid r with
         | Some row =>
             forallb (λ v, bool_decide (v.1 < length (splitFields (r_flds row)))%nat)
                     (snd <$> map_to_list (n_fmap n))
         | None => true
         end
    else true) (nsums b).

End methods.

(** *** Dict interface: listings *)

Definition keys (self : Note) : list string := fst <$> map_to_list (n_fmap self).

Definition values (self : Note) : list string := n_fields self.

Section items.
Context `{DictOrder}.

(** The order of the tuples [(ord, field)] that [items] sorts. *)
Definition value_leb (x y : nat * Field) : bool :=
  (x.1 <? y.1)%nat || ((x.1 =? y.1)%nat && dict_leb x.2 y.2).

Definition value_le (x y : nat * Field) : Prop := value_leb x y = true.

#[global] Instance value_le_dec x y : Decision (value_le x y).
Proof. unfold value_le. apply _. Defined.

Definition items (self : Note) : outcome (list (string * string)) :=
  mapM (λ v, val ← getindex (n_fields self) v.1; Ret (f_name v.2, val))
       (merge_sort value_le (snd <$> map_to_list (n_fmap self))).

End items.

(** The ordinals of the field map are 0, 1, 2, ..., one per field name. *)
Definition fmap_contiguous (n : Note) : bool :=
  bool_decide (merge_sort (≤)%nat (fst <$> (snd <$> map_to_list (n_fmap n)))
               = seq 0 (size (n_fmap n))).

(** Every ordinal of the field map is a position of [fields] (section 3:
    [fields] is as long as the model's field list). *)
Definition ords_in_range (n : Note) : bool :=
  forallb (λ v, bool_decide (v.1 < length (n_fields n))%nat)
          (snd <$> map_to_list (n_fmap n)).

End Note.

(** ** A concrete deck for the examples *)

Module Sample.

(** Fields are joined with the unit separator, byte 31. *)
Definition sep : ascii := ascii_of_nat 31.

Fixpoint join (l : list string) : string :=
  match l with
  | [] => ""
  | [s] => s
  | s :: l' => s +:+ String sep (join l')
  end.

Fixpoint split_acc (cur : string) (s : string) : list string :=
  match s with
  | EmptyString => [cur]
  | String c r =>
      if Ascii.eqb c sep then cur :: split_acc "" r
      else split_acc (cur +:+ String c "") r
  end.

Definition split (s : string) : list string := split_acc "" s.

(** A toy checksum: the length of the value. Collisions are frequent,
    which is what the uniqueness check has to cope with. *)
Definition csum (s : string) : Z := Z.of_nat (String.length s).

Definition front : Field := mkField "Front" true true.
Definition back : Field := mkField "Back" false false.

Definition basic : Model := mkModel 1 1 [front; back] false.
Definition cloze : Model := mkModel 2 1 [front; back] true.

Definition fieldMap (m : Model) : FieldMap :=
  list_to_map (imap (λ i f, (f_name f, (i, f))) (m_flds m)).

(** The cloze ordinals a note references: here, one template per
    non-empty field. *)
Definition templates (n : Note) : list Template :=
  omap (λ p, if truthy_str p.2 then Some (mkTemplate (Z.of_nat p.1)) else None)
       (imap (λ i f, (i, f)) (n_fields n)).

(** A card generator that adds, for each note asked for, one card at the
    next free ordinal. *)
Definition generated (d : Deck) (nids : list Z) : list CardRow :=
  cards (db d) ++
  ((λ nid, mkCardRow (1000 + nid) nid
             (Z.of_nat (length (filter (λ c, c_nid c = nid) (cards (db d))))))
     <$> nids).

#[global] Instance collab : Collaborators := {|
  fieldChecksum := csum;
  stripHTML := λ s, s;
  joinFields := join;
  splitFields := split;
  intTime := 1300000000;
  timestampID := λ _ _, 1300000000000;
  guid64 := "g0";
  tags_split := λ s, if truthy_str s then [s] else [];
  tags_join := join;
  tags_canonify := λ l, l;
  models_get := λ mid, if mid =? 2 then cloze else basic;
  models_fieldMap := fieldMap;
  models_sortIdx := λ _, 0%nat;
  findTemplates := λ _ n, templates n;
  genCards_cards := generated
|}.

(** A [lower()] that folds the ASCII letters only. *)
#[global] Instance casing : Casing := {|
  lower := ascii_lower_str;
  lower_ascii := λ _ _, eq_refl
|}.

#[global] Instance dict_order : DictOrder := {|
  dict_leb := λ _ _, true;
  dict_leb_total := λ _ _, or_introl eq_refl
|}.

Definition empty_deck : Deck := mkDeck (mkDB ∅ [] []) (-1) [] [].

(** A deck holding one flushed note of the basic model, id 10. *)
Definition row1 : NoteRow :=
  mkNoteRow "g1" 1 1 1299999999 (-1) "foo" (join ["hello"; "world"]) "hello" 0 "".

Definition deck1 : Deck :=
  mkDeck (mkDB {[ 10 := row1 ]} [(10, 1, csum "hello")] []) (-1) [] [].

(** A cloze note, id 20, that references cloze ordinal 0 only, and three
    decks: one where it has no card yet, one where it has the card of
    ordinal 0, and one where it also has a card of ordinal 1 that its
    fields no longer reference. *)
Definition nc : Note :=
  mkNote 20 "g2" 2 1 None None ["t"] ["{{c1::a}}"; ""]
         0 "" cloze (fieldMap cloze) None.

Definition deck_new : Deck := mkDeck (mkDB ∅ [] []) 7 [] [].

Definition deck_existing : Deck :=
  mkDeck (mkDB ∅ [(20, 2, 3)] [mkCardRow 100 20 0]) 7 [] [].

Definition deck_stale : Deck :=
  mkDeck (mkDB ∅ [] [mkCardRow 100 20 0; mkCardRow 101 20 1]) 7 [] [].

(** Two unsaved notes of the basic model over [deck1]: [n2] repeats the
    stored note's "hello" in the unique field, [n3] holds "world", which
    has the same checksum under [csum] and is not a duplicate. *)
Definition n2 : Note :=
  mkNote 11 "g3" 1 1 None None [] ["hello"; ""] 0 "" basic (fieldMap basic) None.

Definition n3 : Note :=
  mkNote 12 "g4" 1 1 None None [] ["world"; ""] 0 "" basic (fieldMap basic) None.

(** A note whose [fields] is empty, so that no ordinal and no sort index
    is a position of it, and a note with one field whose field map has a
    unique field "Extra" at ordinal 5. *)
Definition n_nofields : Note :=
  mkNote 30 "g5" 1 1 None None [] [] 0 "" basic (fieldMap basic) None.

Definition n_short : Note :=
  mkNote 31 "g6" 1 1 None None [] ["a"] 0 "" basic
         (<["Extra" := (5%nat, mkField "Extra" true false)]> (fieldMap basic)) None.

(** A note of the basic model, as [load] or [__init__] would build it. *)
Definition n1 : Note :=
  mkNote 10 "g1" 1 1 None None ["foo"; "Bar"; "FOO"] ["hello"; "world"]
         0 "" basic (fieldMap basic) None.

(** A note of the basic model with every field empty, as [__init__]
    leaves it. *)
Definition n_blank : Note :=
  mkNote 40 "g7" 1 1 None None [] [""; ""] 0 "" basic (fieldMap basic) None.

(** The states the examples start from. *)
Definition w_cloze : World := mkWorld deck_existing nc.
Definition w_basic : World := mkWorld empty_deck n1.

End Sample.

(** ** Records and the state monad: basic facts *)

Lemma world_eta w : mkWorld (deck w) (self w) = w.
Proof. by destruct w. Qed.

Lemma set_tags_same n : set_tags (n_tags n) n = n.
Proof. by destruct n. Qed.

Lemma M_bind_ret {A B} (m : M A) (f : A → M B) w a w' :
  m w = (Ret a, w') → (m ≫= f) w = f a w'.
Proof. intros E. unfold mbind, M_bind. by rewrite E. Qed.

(** ** Tags *)

Lemma list_remove_first_app x pre l :
  Forall (λ t, t ≠ x) pre →
  list_remove_first x (pre ++ x :: l) = Ret (pre ++ l).
Proof.
  induction 1 as [|y pre Hy _ IH]; simpl.
  - by rewrite String.eqb_refl.
  - destruct (String.eqb_spec y x) as [->|_]; [done|].
    by rewrite IH.
Qed.

Section delTag.
Context `{Casing}.
Variable tag : string.

Let matches (t : string) : Prop := lower t = lower tag.

(** The second loop of [delTag], started on a tag list whose prefix
    [pre] holds no match and whose suffix [l] supplies the removals. *)
Lemma delTag_loop l : ∀ pre w,
  n_tags (self w) = pre ++ l →
  Forall (λ t, ¬ matches t) pre →
  for_each (filter matches l) (λ r,
      self ← get_self;
      tags ← lift (list_remove_first r (n_tags self));
      modify_self (set_tags tags)) w
  = (Ret tt, mkWorld (deck w) (set_tags (pre ++ filter (λ t, ¬ matches t) l) (self w))).
Proof.
  induction l as [|x l IH]; intros pre w Htags Hpre.
  - simpl. rewrite app_nil_r in *. rewrite <- Htags, set_tags_same.
    by rewrite world_eta.
  - destruct (decide (matches x)) as [Hx|Hx].
    + rewrite filter_cons_True by done.
      rewrite (filter_cons_False (λ t, ¬ matches t)) by (intros Hn; by apply Hn).
      cbn [for_each].
      erewrite M_bind_ret; last first.
      { unfold get_self, lift, modify_self, mbind, M_bind. rewrite Htags.
        rewrite list_remove_first_app; [reflexivity|].
        eapply Forall_impl; [exact Hpre|]. intros t Ht ->. by apply Ht. }
      rewrite (IH pre); [done|done|done].
    + rewrite filter_cons_False by done.
      rewrite (filter_cons_True (λ t, ¬ matches t)) by done.
      rewrite (IH (pre ++ [x])).
      * by rewrite <- app_assoc.
      * by rewrite <- app_assoc.
      * apply Forall_app; split; [done|]. by constructor.
Qed.

End delTag.

(** C8. [delTag(tag)] never raises and leaves in [self.tags] exactly the
    entries that differ from [tag] when both are lower-cased by
    [lower()], in their original order: every case-insensitive match
    goes, duplicates included, and nothing else moves. This holds for
    whatever [lower()] does to letters outside ASCII. In particular
    [delTag("Foo")] on ["foo", "Bar", "FOO"] leaves ["Bar"]. *)
Theorem delTag_removes_case_insensitive_matches `{Casing} :
  (∀ tag w,
     Note.delTag tag w =
     (Ret tt,
      mkWorld (deck w)
        (set_tags (filter (λ t, lower t ≠ lower tag) (n_tags (self w))) (self w))))
  ∧ (∀ d n,
       Note.delTag "Foo" (mkWorld d (set_tags ["foo"; "Bar"; "FOO"] n)) =
       (Ret tt, mkWorld d (set_tags ["Bar"] n))).
Proof.
  assert (Hgen : ∀ tag w,
     Note.delTag tag w =
     (Ret tt,
      mkWorld (deck w)
        (set_tags (filter (λ t, lower t ≠ lower tag) (n_tags (self w))) (self w)))).
  { intros tag w. unfold Note.delTag.
    erewrite M_bind_ret by reflexivity.
    by rewrite (delTag_loop tag (n_tags (self w)) [] w). }
  split; [exact Hgen|].
  intros d n. rewrite Hgen. cbn [deck self n_tags set_tags].
  assert (lower "Foo" = "foo") as -> by by rewrite lower_ascii.
  assert (Hfoo : lower "foo" = "foo") by by rewrite lower_ascii.
  assert (HFOO : lower "FOO" = "foo") by by rewrite lower_ascii.
  assert (HBar : lower "Bar" = "bar") by by rewrite lower_ascii.
  rewrite filter_cons_False by (rewrite Hfoo; tauto).
  rewrite filter_cons_True by (by rewrite HBar).
  rewrite filter_cons_False by (rewrite HFOO; tauto).
  reflexivity.
Qed.

(** ** Dict interface *)

Lemma getindex_lookup {A} (l : list A) i a : l !! i = Some a → getindex l i = Ret a.
Proof. unfold getindex. by intros ->. Qed.

Lemma getindex_Ret {A} (l : list A) i a : getindex l i = Ret a → l !! i = Some a.
Proof. unfold getindex. by destruct (l !! i); intros [= ->]. Qed.

(** C7. On a name the bound field map does not define, [__getitem__] and
    [__setitem__] raise [KeyError] (the code's UnknownField) and
    [__setitem__] changes nothing. On a defined name whose ordinal is a
    position of [fields], [__getitem__] returns the string at that
    position and [__setitem__] overwrites that position only: every other
    field, every other attribute and the deck stay as they were. *)
Theorem getitem_setitem_by_name (w : World) (key value : string) :
  (n_fmap (self w) !! key = None →
     Note.__getitem__ (self w) key = Raise (KeyError key)
     ∧ Note.__setitem__ key value w = (Raise (KeyError key), w))
  ∧ (∀ ord conf,
       n_fmap (self w) !! key = Some (ord, conf) →
       (ord < length (n_fields (self w)))%nat →
       (∃ v, n_fields (self w) !! ord = Some v
             ∧ Note.__getitem__ (self w) key = Ret v)
       ∧ (∃ w', Note.__setitem__ key value w = (Ret tt, w')
                ∧ deck w' = deck w
                ∧ self w' = set_fields (<[ord := value]> (n_fields (self w))) (self w)
                ∧ n_fields (self w') !! ord = Some value
                ∧ length (n_fields (self w')) = length (n_fields (self w))
                ∧ ∀ j, j ≠ ord → n_fields (self w') !! j = n_fields (self w) !! j)).
Proof.
  split.
  - intros Hk. unfold Note.__getitem__, Note.__setitem__, Note._fieldOrd.
    split.
    + by rewrite Hk.
    + unfold get_self, lift, mbind, M_bind. by rewrite Hk.
  - intros ord conf Hk Hlt. split.
    + destruct (lookup_lt_is_Some_2 _ _ Hlt) as [v Hv].
      exists v. split; [done|].
      unfold Note.__getitem__, Note._fieldOrd. rewrite Hk. simpl.
      by apply getindex_lookup.
    + eexists. split.
      * unfold Note.__setitem__, Note._fieldOrd, get_self, lift, mbind, M_bind.
        rewrite Hk. simpl. rewrite bool_decide_eq_true_2 by done.
        reflexivity.
      * simpl. repeat split.
        -- by apply list_lookup_insert_eq.
        -- by rewrite length_insert.
        -- intros j Hj. by apply list_lookup_insert_ne.
Qed.

Lemma getitem_setitem_by_name_witness :
  (Note.__getitem__ Sample.n1 "Nope" = Raise (KeyError "Nope")
   ∧ Note.__setitem__ "Nope" "x" (mkWorld Sample.empty_deck Sample.n1)
     = (Raise (KeyError "Nope"), mkWorld Sample.empty_deck Sample.n1))
  ∧ (∃ w', Note.__setitem__ "Back" "x" (mkWorld Sample.empty_deck Sample.n1)
           = (Ret tt, w')
           ∧ n_fields (self w') = ["hello"; "x"]).
Proof.
  split.
  - apply (getitem_setitem_by_name (mkWorld Sample.empty_deck Sample.n1) "Nope" "x").
    vm_compute. reflexivity.
  - destruct (getitem_setitem_by_name (mkWorld Sample.empty_deck Sample.n1) "Back" "x")
      as [_ Hdef].
    destruct (Hdef 1%nat Sample.back) as [_ (w' & Hset & _ & Hself & _)].
    + vm_compute. reflexivity.
    + simpl. lia.
    + exists w'. split; [exact Hset|]. rewrite Hself. reflexivity.
Defined.

(** ** Construction and loading *)

Section construction.
Context `{Collaborators}.

(** C6. [load] on an id with no row in [notes] raises (the [TypeError]
    of unpacking the missing row is the code's NotFound) and leaves the
    object and the deck alone. On an id with a row it returns with every
    persisted attribute taken from that row, the field blob split back
    into [fields] by [splitFields], the tag text split back into [tags]
    by the tag service, and the model and field map looked up from the
    row's [mid]. The constructor [Note(deck, id=i)] does the same. *)
Theorem load_by_id (w : World) :
  (select_note (db (deck w)) (n_id (self w)) = None →
     Note.load w = (Raise TypeError, w)
     ∧ (n_id (self w) ≠ 0 →
        Note.__init__ (deck w) None (Some (n_id (self w))) = Raise TypeError))
  ∧ (∀ r, select_note (db (deck w)) (n_id (self w)) = Some r →
       ∃ n, Note.load w = (Ret tt, mkWorld (deck w) n)
            ∧ n_id n = n_id (self w)
            ∧ n_guid n = r_guid r ∧ n_mid n = r_mid r ∧ n_gid n = r_gid r
            ∧ n_mod n = Some (r_mod r) ∧ n_usn n = Some (r_usn r)
            ∧ n_flags n = r_flags r ∧ n_data n = r_data r
            ∧ n_fields n = splitFields (r_flds r)
            ∧ n_tags n = tags_split (r_tags r)
            ∧ n_model n = models_get (r_mid r)
            ∧ n_fmap n = models_fieldMap (models_get (r_mid r))
            ∧ (n_id (self w) ≠ 0 →
               Note.__init__ (deck w) None (Some (n_id (self w)))
               = Ret (mkNote (n_id n) (n_guid n) (n_mid n) (n_gid n)
                             (n_mod n) (n_usn n) (n_tags n) (n_fields n)
                             (n_flags n) (n_data n) (n_model n) (n_fmap n) None))).
Proof.
  split.
  - intros Hnone. split.
    + unfold Note.load. by rewrite Hnone.
    + intros Hid. unfold Note.__init__, Note.load. simpl.
      unfold truthy_int. rewrite (proj2 (Z.eqb_neq _ _) Hid). simpl.
      by rewrite Hnone.
  - intros r Hr. eexists. split.
    + unfold Note.load. rewrite Hr. reflexivity.
    + simpl. repeat split.
      intros Hid. unfold Note.__init__, Note.load. simpl.
      unfold truthy_int. rewrite (proj2 (Z.eqb_neq _ _) Hid). simpl.
      by rewrite Hr.
Qed.

(** C9. The constructor asserts [not (model and id)]: with a model and a
    non-zero id it raises [AssertionError]. When the assertion passes
    exactly one path runs. With a non-zero id it is the load path: the
    note keeps the given id and is whatever [load] makes of the stored
    row, and nothing is minted. Otherwise it is the fresh path: the id
    comes from [timestampID], the guid from [guid64], [fields] holds one
    empty string per field of the model, [tags] is empty, [flags] is 0,
    and the database is not read for a row; without a model this path
    raises at [model['gid']]. *)
Theorem init_paths_exclusive (d : Deck) :
  (∀ m i, i ≠ 0 → Note.__init__ d (Some m) (Some i) = Raise AssertionError)
  ∧ (∀ i, i ≠ 0 →
       Note.__init__ d None (Some i) =
       match select_note (db d) i with
       | None => Raise TypeError
       | Some r =>
           Ret (mkNote i (r_guid r) (r_mid r) (r_gid r)
                       (Some (r_mod r)) (Some (r_usn r))
                       (tags_split (r_tags r)) (splitFields (r_flds r))
                       (r_flags r) (r_data r) (models_get (r_mid r))
                       (models_fieldMap (models_get (r_mid r))) None)
       end)
  ∧ (∀ m id, truthy_opt truthy_int id = false →
       ∃ n, Note.__init__ d (Some m) id = Ret n
            ∧ n_id n = timestampID (db d) "notes"
            ∧ n_guid n = guid64
            ∧ n_mid n = m_id m ∧ n_gid n = m_gid m
            ∧ n_model n = m ∧ n_fmap n = models_fieldMap m
            ∧ n_fields n = replicate (length (m_flds m)) ""
            ∧ n_tags n = [] ∧ n_flags n = 0 ∧ n_data n = ""
            ∧ n_mod n = None ∧ n_usn n = None)
  ∧ (∀ id, truthy_opt truthy_int id = false →
       Note.__init__ d None id = Raise TypeError).
Proof.
  split; [|split; [|split]].
  - intros m i Hi. unfold Note.__init__. simpl.
    unfold truthy_int. by rewrite (proj2 (Z.eqb_neq _ _) Hi).
  - intros i Hi. unfold Note.__init__, Note.load. simpl.
    unfold truthy_int. rewrite (proj2 (Z.eqb_neq _ _) Hi). simpl.
    by destruct (select_note (db d) i).
  - intros m id Hid.
    assert (Note.__init__ d (Some m) id = Note.fresh d (Some m)) as ->.
    { unfold Note.__init__. simpl. rewrite Hid.
      destruct id as [i|]; [|reflexivity].
      simpl in Hid. by rewrite Hid. }
    unfold Note.fresh. eexists. split; [reflexivity|].
    simpl. repeat split.
  - intros id Hid. unfold Note.__init__. simpl.
    destruct id as [i|]; [|reflexivity].
    simpl in Hid. by rewrite Hid.
Qed.

End construction.

Lemma load_by_id_witness :
  Note.load (mkWorld Sample.deck1 (Note.blank 99))
  = (Raise TypeError, mkWorld Sample.deck1 (Note.blank 99))
  ∧ ∃ n, Note.load (mkWorld Sample.deck1 (Note.blank 10))
         = (Ret tt, mkWorld Sample.deck1 n)
         ∧ n_fields n = ["hello"; "world"] ∧ n_tags n = ["foo"].
Proof.
  split.
  - apply (load_by_id (mkWorld Sample.deck1 (Note.blank 99))).
    vm_compute. reflexivity.
  - destruct (load_by_id (mkWorld Sample.deck1 (Note.blank 10))) as [_ Hsome].
    destruct (Hsome Sample.row1) as (n & Hload & Hrest).
    + vm_compute. reflexivity.
    + exists n. split; [exact Hload|].
      destruct Hrest as (_ & _ & _ & _ & _ & _ & _ & _ & Hf & Ht & _).
      rewrite Hf, Ht. split; vm_compute; reflexivity.
Defined.

Lemma init_paths_exclusive_witness :
  Note.__init__ Sample.deck1 (Some Sample.basic) (Some 10) = Raise AssertionError
  ∧ Note.__init__ Sample.deck1 None (Some 99) = Raise TypeError
  ∧ ∃ n, Note.__init__ Sample.deck1 (Some Sample.basic) (Some 0) = Ret n
         ∧ n_fields n = [""; ""] ∧ n_tags n = [] ∧ n_flags n = 0.
Proof.
  destruct (init_paths_exclusive Sample.deck1) as (Hboth & Hload & Hfresh & _).
  split; [|split].
  - apply Hboth. lia.
  - rewrite Hload by lia. vm_compute. reflexivity.
  - destruct (Hfresh Sample.basic (Some 0)) as (n & Hn & Hrest).
    + vm_compute. reflexivity.
    + exists n. split; [exact Hn|].
      destruct Hrest as (_ & _ & _ & _ & _ & _ & Hf & Ht & Hfl & _).
      rewrite Hf, Ht, Hfl. repeat split.
Defined.

(** ** Flush *)

Section flush.
Context `{Collaborators}.

Lemma set_id_same n : set_id (n_id n) n = n.
Proof. by destruct n. Qed.

Lemma clozePreFlush_run w :
  Note._clozePreFlush w =
  (if Note.stale_card w
   then Raise (Exception "UI should have deleted cloze")
   else Ret tt,
   mkWorld (deck w)
     (set_newlyAdded (negb (has_cards (db (deck w)) (n_id (self w)))) (self w))).
Proof.
  unfold Note._clozePreFlush, Note.stale_card, Note.referenced_ords.
  unfold get_self, get_deck, modify_self, lift, mbind, M_bind, mret, M_ret.
  cbn [deck self n_id set_newlyAdded].
  by destruct (has_card_outside _ _ _).
Qed.

Lemma updateFieldChecksums_run w :
  Note.updateFieldChecksums w =
  match Note.checksum_rows (self w) (snd <$> map_to_list (n_fmap (self w))) with
  | Ret rows =>
      (Ret tt,
       mkWorld (set_db (insert_nsums rows
                          (delete_nsums (n_id (self w)) (db (deck w)))) (deck w))
               (self w))
  | Raise e =>
      (Raise e,
       mkWorld (set_db (delete_nsums (n_id (self w)) (db (deck w))) (deck w))
               (self w))
  end.
Proof.
  unfold Note.updateFieldChecksums.
  unfold get_self, modify_deck, lift, mbind, M_bind.
  cbn [deck self].
  by destruct (Note.checksum_rows _ _).
Qed.

(** [flush], run step by step, when the pre-flush hook does not abort. *)
Lemma flush_run (mod_ : option Z) (w : World) :
  (m_cloze (n_model (self w)) = true → Note.stale_card w = false) →
  Note.flush mod_ w =
  let n := Note.stamped mod_ w in
  match n_fields n !! models_sortIdx (n_model n) with
  | None => (Raise IndexError, mkWorld (deck w) n)
  | Some f =>
      let b1 := set_notes (<[n_id n := Note.row_of n (default 0 (n_mod n))
                                              (default 0 (n_usn n)) f]>
                             (notes (db (deck w)))) (db (deck w)) in
      match Note.checksum_rows n (snd <$> map_to_list (n_fmap n)) with
      | Raise e =>
          (Raise e, mkWorld (set_db (delete_nsums (n_id n) b1) (deck w)) n)
      | Ret rows =>
          let d3 := Note.tags_register (n_tags n)
                      (set_db (insert_nsums rows (delete_nsums (n_id n) b1)) (deck w)) in
          (Ret tt,
           mkWorld (if m_cloze (n_model n) && has_cards (db (deck w)) (n_id n)
                    then Note.genCards [n_id n] d3 else d3) n)
      end
  end.
Proof.
  intros Hpre. destruct w as [d n0]. cbn [deck self] in *.
  unfold Note.flush, Note.model.
  unfold mbind at 1. unfold M_bind at 1. cbn [get_self self].
  unfold mbind at 1. unfold M_bind at 1.
  destruct (m_cloze (n_model n0)) eqn:Hcloze.
  - rewrite clozePreFlush_run. rewrite Hpre by done.
    unfold get_self, get_deck, modify_self, modify_deck, lift, mbind, M_bind, mret, M_ret.
    cbn [deck self].
    unfold Note.stamped. cbn [deck self]. rewrite Hcloze.
    set (n := set_usn _ _).
    cbv zeta.
    unfold getindex. destruct (n_fields n !! _) as [f|]; [|done].
    unfold insert_or_replace_note. cbn [deck self].
    rewrite set_id_same, updateFieldChecksums_run. cbn [deck self].
    destruct (Note.checksum_rows _ _) as [rows|e]; [|done].
    cbn [deck self].
    assert (m_cloze (n_model n) = true) as -> by done.
    unfold Note._clozePostFlush, get_self, modify_deck, mbind, M_bind, mret, M_ret.
    cbn [deck self].
    assert (n_newlyAdded n = Some (negb (has_cards (db d) (n_id n0)))) as -> by done.
    rewrite negb_involutive.
    change (n_id n) with (n_id n0).
    by destruct (has_cards (db d) (n_id n0)).
  - unfold get_self, get_deck, modify_self, modify_deck, lift, mbind, M_bind, mret, M_ret.
    cbn [deck self].
    unfold Note.stamped. cbn [deck self]. rewrite Hcloze.
    set (n := set_usn _ _).
    cbv zeta.
    unfold getindex. destruct (n_fields n !! _) as [f|]; [|done].
    unfold insert_or_replace_note. cbn [deck self].
    rewrite set_id_same, updateFieldChecksums_run. cbn [deck self].
    destruct (Note.checksum_rows _ _) as [rows|e]; [|done].
    cbn [deck self].
    assert (m_cloze (n_model n) = false) as -> by done.
    reflexivity.
Qed.

(** C2. When a cloze note has a card whose ordinal is not among the
    ordinals the note references, [flush] raises the exception of the
    pre-flush hook (the code's InvariantViolation) before any write: the
    deck, hence the note's row, the [nsums] index, the tag registry and
    the card generator, is untouched, and on the note only [newlyAdded]
    has been assigned, so [mod] and [usn] keep their values. *)
Theorem flush_stale_cloze_aborts (mod_ : option Z) (w : World) (c : CardRow) :
  m_cloze (n_model (self w)) = true →
  c ∈ cards (db (deck w)) →
  c_nid c = n_id (self w) →
  c_ord c ∉ Note.referenced_ords w →
  ∃ w', Note.flush mod_ w = (Raise (Exception "UI should have deleted cloze"), w')
        ∧ deck w' = deck w
        ∧ notes (db (deck w')) = notes (db (deck w))
        ∧ nsums (db (deck w')) = nsums (db (deck w))
        ∧ n_mod (self w') = n_mod (self w)
        ∧ n_usn (self w') = n_usn (self w)
        ∧ self w' = set_newlyAdded false (self w).
Proof.
  intros Hcloze Hc Hnid Hord.
  assert (Hhas : has_cards (db (deck w)) (n_id (self w)) = true).
  { apply existsb_exists. exists c. split; [by apply list_elem_of_In|].
    by apply Z.eqb_eq. }
  assert (Hstale : Note.stale_card w = true).
  { apply existsb_exists. exists c. split; [by apply list_elem_of_In|].
    apply andb_true_iff. split; [by apply Z.eqb_eq|].
    apply negb_true_iff. by apply bool_decide_eq_false_2. }
  unfold Note.stale_card, Note.referenced_ords in Hstale.
  eexists. split.
  - unfold Note.flush, Note.model.
    unfold mbind at 1. unfold M_bind. cbn [get_self].
    rewrite Hcloze.
    unfold mbind at 1. unfold M_bind.
    unfold Note._clozePreFlush, get_self, get_deck, modify_self, lift, mbind, M_bind.
    cbn [deck self n_id set_newlyAdded].
    rewrite Hstale. reflexivity.
  - cbn [deck self]. rewrite Hhas. repeat split.
Qed.

(** *** The uniqueness index *)

Lemma checksum_rows_in_range (n : Note) (vals : list (nat * Field)) :
  forallb (λ v, bool_decide (v.1 < length (n_fields n))%nat) vals = true →
  Note.checksum_rows n vals =
  Ret ((λ v, (n_id n, n_mid n, fieldChecksum (n_fields n !!! v.1))) <$>
       filter (λ v, f_uniq v.2 = true ∧ n_fields n !!! v.1 ≠ "") vals).
Proof.
  induction vals as [|[ord conf] vals IH]; [done|].
  intros [Hord Hvals]%andb_true_iff. apply bool_decide_eq_true_1 in Hord.
  simpl in Hord. specialize (IH Hvals). cbn [Note.checksum_rows].
  destruct (f_uniq conf) eqn:Hu; simpl.
  - destruct (lookup_lt_is_Some_2 _ _ Hord) as [val Hval].
    rewrite (getindex_lookup _ _ _ Hval). simpl.
    rewrite IH.
    assert (Hget : n_fields n !!! ord = val) by by apply list_lookup_total_correct.
    destruct val as [|a val]; simpl.
    + rewrite filter_cons_False; [done|]. simpl. rewrite Hget. tauto.
    + rewrite filter_cons_True; [|simpl; by rewrite Hget, Hu].
      simpl. by rewrite Hget.
  - rewrite IH. rewrite filter_cons_False; [done|]. simpl. rewrite Hu.
    intros [? _]. done.
Qed.

Lemma checksum_rows_index_rows (n : Note) :
  Note.ords_in_range n = true →
  Note.checksum_rows n (snd <$> map_to_list (n_fmap n)) = Ret (Note.index_rows n).
Proof. intros Hords. by rewrite checksum_rows_in_range. Qed.

Lemma filter_nid_index_rows (n : Note) :
  filter (λ r : NsumRow, s_nid r = n_id n) (Note.index_rows n) = Note.index_rows n
  ∧ filter (λ r : NsumRow, s_nid r ≠ n_id n) (Note.index_rows n) = [].
Proof.
  unfold Note.index_rows.
  induction (filter _ (snd <$> map_to_list (n_fmap n))) as [|v l [IH1 IH2]]; [done|].
  rewrite fmap_cons. split.
  - rewrite filter_cons_True by done. by rewrite IH1.
  - rewrite filter_cons_False; [done|]. unfold s_nid. simpl. tauto.
Qed.

Lemma filter_nid_delete (id : Z) (l : list NsumRow) :
  filter (λ r : NsumRow, s_nid r = id) (filter (λ r : NsumRow, s_nid r ≠ id) l) = [].
Proof.
  induction l as [|r l IH]; [done|].
  destruct (decide (s_nid r = id)) as [Hr|Hr].
  - by rewrite (filter_cons_False (λ r : NsumRow, s_nid r ≠ id)) by tauto.
  - rewrite (filter_cons_True (λ r : NsumRow, s_nid r ≠ id)) by done.
    by rewrite filter_cons_False by done.
Qed.

Lemma filter_idemp_ne (id : Z) (l : list NsumRow) :
  filter (λ r : NsumRow, s_nid r ≠ id) (filter (λ r : NsumRow, s_nid r ≠ id) l)
  = filter (λ r : NsumRow, s_nid r ≠ id) l.
Proof.
  induction l as [|r l IH]; [done|].
  destruct (decide (s_nid r = id)) as [Hr|Hr].
  - by rewrite (filter_cons_False (λ r : NsumRow, s_nid r ≠ id)) by tauto.
  - rewrite (filter_cons_True (λ r : NsumRow, s_nid r ≠ id)) by done.
    rewrite filter_cons_True by done. by rewrite IH.
Qed.

Lemma index_rows_stamped (mod_ : option Z) (w : World) :
  Note.index_rows (Note.stamped mod_ w) = Note.index_rows (self w)
  ∧ Note.ords_in_range (Note.stamped mod_ w) = Note.ords_in_range (self w)
  ∧ n_id (Note.stamped mod_ w) = n_id (self w)
  ∧ n_fields (Note.stamped mod_ w) = n_fields (self w)
  ∧ n_fmap (Note.stamped mod_ w) = n_fmap (self w)
  ∧ n_model (Note.stamped mod_ w) = n_model (self w).
Proof. unfold Note.stamped. by destruct (m_cloze _). Qed.

(** [flush] returns normally from a state where the pre-flush hook passes
    and the sort field and every field ordinal are positions of
    [fields]. *)
Lemma flush_returns (mod_ : option Z) (w : World) :
  (m_cloze (n_model (self w)) = true → Note.stale_card w = false) →
  Note.sort_in_range (self w) = true →
  Note.ords_in_range (self w) = true →
  ∃ f,
    n_fields (self w) !! models_sortIdx (n_model (self w)) = Some f
    ∧ Note.flush mod_ w =
      let n := Note.stamped mod_ w in
      let b1 := set_notes (<[n_id n := Note.row_of n (default 0 (n_mod n))
                                                   (default 0 (n_usn n)) f]>
                             (notes (db (deck w)))) (db (deck w)) in
      let d3 := Note.tags_register (n_tags n)
                  (set_db (insert_nsums (Note.index_rows n)
                             (delete_nsums (n_id n) b1)) (deck w)) in
      (Ret tt,
       mkWorld (if m_cloze (n_model n) && has_cards (db (deck w)) (n_id n)
                then Note.genCards [n_id n] d3 else d3) n).
Proof.
  intros Hpre Hsort Hords.
  apply bool_decide_eq_true_1 in Hsort.
  destruct (lookup_lt_is_Some_2 _ _ Hsort) as [f Hf].
  exists f. split; [done|].
  rewrite flush_run by done. cbv zeta.
  destruct (index_rows_stamped mod_ w) as (_ & Hr & _ & Hfl & _ & Hm).
  rewrite Hfl, Hm, Hf.
  rewrite checksum_rows_index_rows; [done|].
  rewrite <- Hr in Hords. exact Hords.
Qed.

(** C3. Rebuilding the index for a note whose field ordinals are all
    positions of [fields] returns normally and leaves in [nsums], for
    that note's id, exactly one row (id, mid, checksum) per field
    definition marked unique whose current value is non-empty, and
    nothing else: every row the note had before is deleted first, the
    new rows are appended after, and the rows of other notes, the
    [notes] table and the note itself are untouched. The same holds for
    the index as [flush] leaves it. *)
Theorem updateFieldChecksums_rebuilds_index (w : World) :
  Note.ords_in_range (self w) = true →
  (∃ w', Note.updateFieldChecksums w = (Ret tt, w')
         ∧ self w' = self w
         ∧ notes (db (deck w')) = notes (db (deck w))
         ∧ nsums (db (deck w')) =
             filter (λ r : NsumRow, s_nid r ≠ n_id (self w)) (nsums (db (deck w)))
             ++ Note.index_rows (self w)
         ∧ filter (λ r : NsumRow, s_nid r = n_id (self w)) (nsums (db (deck w')))
           = Note.index_rows (self w)
         ∧ filter (λ r : NsumRow, s_nid r ≠ n_id (self w)) (nsums (db (deck w')))
           = filter (λ r : NsumRow, s_nid r ≠ n_id (self w)) (nsums (db (deck w))))
  ∧ (∀ mod_,
       (m_cloze (n_model (self w)) = true → Note.stale_card w = false) →
       Note.sort_in_range (self w) = true →
       ∃ w', Note.flush mod_ w = (Ret tt, w')
             ∧ filter (λ r : NsumRow, s_nid r = n_id (self w')) (nsums (db (deck w')))
               = Note.index_rows (self w')
             ∧ filter (λ r : NsumRow, s_nid r ≠ n_id (self w')) (nsums (db (deck w')))
               = filter (λ r : NsumRow, s_nid r ≠ n_id (self w')) (nsums (db (deck w)))).
Proof.
  intros Hords. split.
  - eexists. split.
    { rewrite updateFieldChecksums_run.
      rewrite checksum_rows_index_rows by exact Hords. reflexivity. }
    cbn [deck self db set_db insert_nsums delete_nsums set_nsums nsums notes].
    destruct (filter_nid_index_rows (self w)) as [Hin Hout].
    repeat split.
    + rewrite filter_app, filter_nid_delete. by rewrite Hin.
    + rewrite filter_app, filter_idemp_ne, Hout. by rewrite app_nil_r.
  - intros mod_ Hpre Hsort.
    destruct (flush_returns mod_ w Hpre Hsort Hords) as (f & _ & Hflush).
    eexists. split; [exact Hflush|].
    cbv zeta. cbn [deck self].
    set (n := Note.stamped mod_ w).
    destruct (filter_nid_index_rows n) as [Hin Hout].
    assert (Hns : ∀ d0 : Deck,
      nsums (db (if m_cloze (n_model n) && has_cards (db (deck w)) (n_id n)
                 then Note.genCards [n_id n] d0 else d0)) = nsums (db d0)).
    { intros d0. by destruct (_ && _). }
    rewrite Hns.
    cbn [deck self db set_db insert_nsums delete_nsums set_nsums nsums notes
         Note.tags_register set_notes].
    split.
    + rewrite filter_app, filter_nid_delete. by rewrite Hin.
    + rewrite filter_app, filter_idemp_ne, Hout. by rewrite app_nil_r.
Qed.

(** *** The cloze cascade *)

(** C1, as the code has it. When [flush] of a cloze note returns, it has
    sent the card generator one request, for the note's id, if the note
    already had a card before the flush, and no request if it had none
    ([newlyAdded]): the request goes out for existing notes, not for
    newly added ones. Such a flush does return whenever the pre-flush
    hook passes and the sort field and the field ordinals are positions
    of [fields]. *)
Theorem flush_cloze_generates_for_existing (mod_ : option Z) (w : World) :
  m_cloze (n_model (self w)) = true →
  (∀ w', Note.flush mod_ w = (Ret tt, w') →
         genCards_calls (deck w') =
         genCards_calls (deck w) ++
           (if has_cards (db (deck w)) (n_id (self w))
            then [[n_id (self w)]] else []))
  ∧ (Note.stale_card w = false →
     Note.sort_in_range (self w) = true →
     Note.ords_in_range (self w) = true →
     ∃ w', Note.flush mod_ w = (Ret tt, w')).
Proof.
  intros Hcloze. split.
  - intros w' Hflush.
    destruct (Note.stale_card w) eqn:Hstale.
    + exfalso. revert Hflush. unfold Note.flush, Note.model.
      unfold mbind at 1. unfold M_bind at 1. cbn [get_self].
      rewrite Hcloze. unfold mbind at 1. unfold M_bind at 1.
      rewrite clozePreFlush_run, Hstale. discriminate.
    + rewrite flush_run in Hflush by done. cbv zeta in Hflush.
      destruct (index_rows_stamped mod_ w) as (_ & _ & Hid & _ & _ & Hm).
      remember (Note.stamped mod_ w) as n eqn:Hn. clear Hn.
      destruct (n_fields _ !! _); [|discriminate].
      destruct (Note.checksum_rows _ _); [|discriminate].
      injection Hflush as <-. cbn [deck]. rewrite Hm, Hcloze, Hid.
      destruct (has_cards _ _); simpl; [done|by rewrite app_nil_r].
  - intros Hstale Hsort Hords.
    destruct (flush_returns mod_ w (λ _, Hstale) Hsort Hords) as (f & _ & ->).
    eauto.
Qed.

(** C10. In every [flush] that the cloze pre-flush hook does not abort,
    [mod] is stamped with the clock's [intTime()] when the override is
    absent or 0 and with the override itself when it is non-zero, and
    [usn] is taken from the deck whatever the override is. *)
Theorem flush_stamps_mod_and_usn (mod_ : option Z) (w : World) (r : outcome unit) (w' : World) :
  (m_cloze (n_model (self w)) = true → Note.stale_card w = false) →
  Note.flush mod_ w = (r, w') →
  (truthy_opt truthy_int mod_ = false → n_mod (self w') = Some intTime)
  ∧ (∀ m, mod_ = Some m → m ≠ 0 → n_mod (self w') = Some m)
  ∧ n_usn (self w') = Some (deck_usn (deck w)).
Proof.
  intros Hpre Hflush.
  assert (Hself : self w' = Note.stamped mod_ w).
  { rewrite flush_run in Hflush by done. cbv zeta in Hflush.
    remember (Note.stamped mod_ w) as n eqn:Hn. clear Hn.
    destruct (n_fields _ !! _); [|by injection Hflush as _ <-].
    destruct (Note.checksum_rows _ _); by injection Hflush as _ <-. }
  rewrite Hself. unfold Note.stamped. cbn [n_mod n_usn set_usn set_mod].
  repeat split.
  - intros Hfalsy. destruct mod_ as [m|]; [|done].
    simpl in Hfalsy. by rewrite Hfalsy.
  - intros m -> Hm. unfold truthy_int.
    by rewrite (proj2 (Z.eqb_neq _ _) Hm).
Qed.

End flush.

Lemma flush_stale_cloze_aborts_witness :
  ∃ w', Note.flush None (mkWorld Sample.deck_stale Sample.nc)
        = (Raise (Exception "UI should have deleted cloze"), w')
        ∧ deck w' = Sample.deck_stale
        ∧ n_mod (self w') = None ∧ n_usn (self w') = None.
Proof.
  destruct (flush_stale_cloze_aborts None (mkWorld Sample.deck_stale Sample.nc)
              (mkCardRow 101 20 1))
    as (w' & Hflush & Hdeck & _ & _ & Hmod & Husn & _).
  - reflexivity.
  - apply list_elem_of_In. simpl. tauto.
  - reflexivity.
  - intros Hin%list_elem_of_In. vm_compute in Hin.
    destruct Hin as [Hin|[]]. discriminate Hin.
  - exists w'. repeat split; assumption.
Defined.

Lemma updateFieldChecksums_rebuilds_index_witness :
  (∃ w', Note.updateFieldChecksums (mkWorld Sample.deck_existing Sample.nc) = (Ret tt, w')
         ∧ nsums (db (deck w')) = [(20, 2, 9)])
  ∧ (∃ w', Note.flush None (mkWorld Sample.deck_existing Sample.nc) = (Ret tt, w')
           ∧ filter (λ r : NsumRow, s_nid r = 20) (nsums (db (deck w'))) = [(20, 2, 9)]).
Proof.
  destruct (updateFieldChecksums_rebuilds_index (mkWorld Sample.deck_existing Sample.nc))
    as [(w' & Hrun & _ & _ & Hns & _) Hflush].
  - vm_compute. reflexivity.
  - split.
    + exists w'. split; [exact Hrun|]. rewrite Hns. vm_compute. reflexivity.
    + destruct (Hflush None) as (w2 & Hrun2 & Hrows & _).
      * intros _. vm_compute. reflexivity.
      * vm_compute. reflexivity.
      * exists w2. split; [exact Hrun2|].
        assert (Hid : n_id (self w2) = 20).
        { pose proof Hrun2 as Hc. vm_compute in Hc. by injection Hc as <-. }
        assert (Hix : Note.index_rows (self w2) = [(20, 2, 9)]).
        { pose proof Hrun2 as Hc. vm_compute in Hc. injection Hc as <-.
          vm_compute. reflexivity. }
        rewrite Hid in Hrows. by rewrite Hrows.
Defined.

(** C1 as stated fails on the code. A cloze note with no card yet is
    newly added, and its flush returns without any request to the card
    generator; the same note, once it has a card, gets one request. *)
Lemma flush_new_cloze_sends_no_request :
  m_cloze (n_model Sample.nc) = true
  ∧ has_cards (db Sample.deck_new) (n_id Sample.nc) = false
  ∧ (∃ w', Note.flush None (mkWorld Sample.deck_new Sample.nc) = (Ret tt, w')
           ∧ genCards_calls (deck w') = [])
  ∧ has_cards (db Sample.deck_existing) (n_id Sample.nc) = true
  ∧ (∃ w', Note.flush None (mkWorld Sample.deck_existing Sample.nc) = (Ret tt, w')
           ∧ genCards_calls (deck w') = [[20]]).
Proof.
  split; [reflexivity|]. split; [reflexivity|]. split; [|split; [reflexivity|]].
  - eexists. split; [vm_compute; reflexivity|]. reflexivity.
  - eexists. split; [vm_compute; reflexivity|]. reflexivity.
Qed.

Lemma flush_cloze_generates_for_existing_witness :
  ∃ w', Note.flush None (mkWorld Sample.deck_existing Sample.nc) = (Ret tt, w')
        ∧ genCards_calls (deck w') = [[20]].
Proof.
  destruct (flush_cloze_generates_for_existing None
              (mkWorld Sample.deck_existing Sample.nc)) as [Hcalls Hret].
  - reflexivity.
  - destruct Hret as [w' Hw'].
    + vm_compute. reflexivity.
    + vm_compute. reflexivity.
    + vm_compute. reflexivity.
    + exists w'. split; [exact Hw'|]. rewrite (Hcalls w' Hw'). reflexivity.
Defined.

Lemma flush_stamps_mod_and_usn_witness :
  n_mod (self (Note.flush (Some 0) (mkWorld Sample.deck_existing Sample.nc)).2)
  = Some 1300000000
  ∧ n_mod (self (Note.flush (Some 5) (mkWorld Sample.deck_existing Sample.nc)).2)
    = Some 5
  ∧ n_usn (self (Note.flush (Some 0) (mkWorld Sample.deck_existing Sample.nc)).2)
    = Some 7.
Proof.
  destruct (flush_stamps_mod_and_usn (Some 0)
              (mkWorld Sample.deck_existing Sample.nc)
              (Note.flush (Some 0) (mkWorld Sample.deck_existing Sample.nc)).1
              (Note.flush (Some 0) (mkWorld Sample.deck_existing Sample.nc)).2)
    as (Hmod & _ & Husn).
  - intros _. vm_compute. reflexivity.
  - apply surjective_pairing.
  - destruct (flush_stamps_mod_and_usn (Some 5)
              (mkWorld Sample.deck_existing Sample.nc)
              (Note.flush (Some 5) (mkWorld Sample.deck_existing Sample.nc)).1
              (Note.flush (Some 5) (mkWorld Sample.deck_existing Sample.nc)).2)
      as (_ & Hover & _).
    + intros _. vm_compute. reflexivity.
    + apply surjective_pairing.
    + split; [apply Hmod; reflexivity|].
      split; [apply (Hover 5); [reflexivity|lia]|exact Husn].
Defined.

(** ** Uniqueness *)

Section unique.
Context `{Collaborators}.

Lemma id_or_0 (id : Z) : (if truthy_int id then id else 0) = id.
Proof. unfold truthy_int. by destruct (Z.eqb_spec id 0) as [->|]. Qed.

Lemma truthy_str_false (s : string) : truthy_str s = false ↔ s = "".
Proof. by destruct s. Qed.

Lemma elem_of_select_nids (b : DB) (csum x mid nid : Z) :
  nid ∈ select_nids b csum x mid ↔
  nid ≠ x ∧ (nid, mid, csum) ∈ nsums b.
Proof.
  unfold select_nids. rewrite list_elem_of_fmap. split.
  - intros ([[n m] c] & -> & [(Hc & Hn & Hm) Hin]%list_elem_of_filter).
    unfold s_nid, s_mid, s_csum in *. simpl in *. by subst.
  - intros [Hn Hin]. exists (nid, mid, csum). split; [done|].
    apply list_elem_of_filter. by split.
Qed.

Lemma elem_of_select_flds (b : DB) (nids : list Z) (flds : string) :
  flds ∈ select_flds b nids ↔
  ∃ nid row, nid ∈ nids ∧ notes b !! nid = Some row ∧ r_flds row = flds.
Proof.
  unfold select_flds. rewrite list_elem_of_fmap. split.
  - intros ([nid row] & -> & Hsorted).
    rewrite merge_sort_Permutation in Hsorted.
    apply list_elem_of_filter in Hsorted as [Hin Hrow].
    apply elem_of_map_to_list in Hrow. by exists nid, row.
  - intros (nid & row & Hin & Hrow & <-). exists (nid, row). split; [done|].
    rewrite merge_sort_Permutation.
    apply list_elem_of_filter. split; [done|]. by apply elem_of_map_to_list.
Qed.

Lemma nsums_consistent_mid (b : DB) (nid mid csum : Z) (row : NoteRow) :
  nsums_consistent b = true →
  (nid, mid, csum) ∈ nsums b →
  notes b !! nid = Some row →
  r_mid row = mid.
Proof.
  intros Hc Hin Hrow. unfold nsums_consistent in Hc.
  rewrite forallb_forall in Hc.
  specialize (Hc _ (proj1 (list_elem_of_In _ _) Hin)).
  unfold s_nid, s_mid in Hc. simpl in Hc. rewrite Hrow in Hc.
  by apply Z.eqb_eq.
Qed.

Lemma scan_candidates_false (ord : nat) (val : string) (blobs : list string) :
  Note.scan_candidates ord val blobs = Ret false →
  ∃ flds, flds ∈ blobs ∧ splitFields flds !! ord = Some val.
Proof.
  induction blobs as [|flds blobs IH]; [done|].
  cbn [Note.scan_candidates]. unfold getindex.
  destruct (splitFields flds !! ord) as [f|] eqn:Hf; [|done]. simpl.
  destruct (String.eqb_spec f val) as [->|Hne].
  - intros _. exists flds. split; [apply elem_of_cons; by left|done].
  - intros (flds' & Hin & Hval)%IH. exists flds'.
    split; [apply elem_of_cons; by right|done].
Qed.

Lemma scan_candidates_true (ord : nat) (val : string) (blobs : list string) :
  (∀ flds, flds ∈ blobs → ∃ f, splitFields flds !! ord = Some f ∧ f ≠ val) →
  Note.scan_candidates ord val blobs = Ret true.
Proof.
  induction blobs as [|flds blobs IH]; [done|].
  intros Hall. cbn [Note.scan_candidates].
  destruct (Hall flds) as (f & Hf & Hne); [apply elem_of_cons; by left|].
  rewrite (getindex_lookup _ _ _ Hf). simpl.
  destruct (String.eqb_spec f val) as [->|_]; [done|].
  apply IH. intros flds' Hin. apply Hall, elem_of_cons. by right.
Qed.

Lemma scan_candidates_found (ord : nat) (val : string) (blobs : list string) flds :
  (∀ flds, flds ∈ blobs → is_Some (splitFields flds !! ord)) →
  flds ∈ blobs → splitFields flds !! ord = Some val →
  Note.scan_candidates ord val blobs = Ret false.
Proof.
  induction blobs as [|x blobs IH]; intros Hall Hin Hval.
  - by apply elem_of_nil in Hin.
  - cbn [Note.scan_candidates].
    destruct (Hall x) as [f Hf]; [apply elem_of_cons; by left|].
    rewrite (getindex_lookup _ _ _ Hf). simpl.
    destruct (String.eqb_spec f val) as [->|Hne]; [done|].
    apply elem_of_cons in Hin as [->|Hin]; [congruence|].
    apply IH; [|done|done]. intros y Hy. apply Hall, elem_of_cons. by right.
Qed.

(** [fieldUnique], run step by step on a unique field with a non-empty
    value. *)
Lemma fieldUnique_run (d : Deck) (self : Note) (name : string) ord conf val :
  n_fmap self !! name = Some (ord, conf) →
  f_uniq conf = true →
  n_fields self !! ord = Some val →
  val ≠ "" →
  Note.fieldUnique d self name =
  match select_nids (db d) (fieldChecksum val) (n_id self) (n_mid self) with
  | [] => Ret true
  | nids => Note.scan_candidates ord val (select_flds (db d) nids)
  end.
Proof.
  intros Hk Hu Hv Hne. unfold Note.fieldUnique, Note.__getitem__, Note._fieldOrd.
  rewrite Hk, Hu. simpl. rewrite (getindex_lookup _ _ _ Hv). simpl.
  destruct val as [|a val]; [done|]. simpl. rewrite id_or_0.
  by destruct (select_nids _ _ _ _).
Qed.

(** A stored note with another id, indexed under the same template set
    and checksum, that holds the same non-empty string at the position
    makes [fieldUnique] answer [False], provided every stored blob has a
    field at that position. *)
Lemma fieldUnique_detects_duplicate (d : Deck) (self : Note) (name : string)
    ord conf val nid row :
  n_fmap self !! name = Some (ord, conf) →
  f_uniq conf = true →
  n_fields self !! ord = Some val →
  val ≠ "" →
  nid ≠ n_id self →
  (nid, n_mid self, fieldChecksum val) ∈ nsums (db d) →
  notes (db d) !! nid = Some row →
  splitFields (r_flds row) !! ord = Some val →
  (∀ nid' row', notes (db d) !! nid' = Some row' →
                is_Some (splitFields (r_flds row') !! ord)) →
  Note.fieldUnique d self name = Ret false.
Proof.
  intros Hk Hu Hv Hne Hnid Hsum Hrow Hval Hread.
  rewrite (fieldUnique_run d self name ord conf val) by done.
  assert (Hin : nid ∈ select_nids (db d) (fieldChecksum val) (n_id self) (n_mid self))
    by by apply elem_of_select_nids.
  destruct (select_nids _ _ _ _) as [|nid0 nids] eqn:Hnids.
  { by apply elem_of_nil in Hin. }
  apply (scan_candidates_found _ _ _ (r_flds row)); [| |done].
  - intros flds (nid' & row' & _ & Hrow' & <-)%elem_of_select_flds. by eapply Hread.
  - apply elem_of_select_flds. by exists nid, row.
Qed.

(** C5. [fieldUnique(name)] answers [False] only when the field is
    unique-constrained, its value is non-empty, and a stored note with
    another id and the same template set holds exactly that string at the
    same position; and it does answer [False] then, for a note the index
    lists under the value's checksum, when the stored blobs have a field
    at that position. On an empty value, or on a field not marked unique,
    it answers [True] whatever the index holds. A checksum hit alone
    never makes it answer [False]: when every other note of the template
    set holds a different string at that position, it answers [True]. *)
Theorem fieldUnique_exact_match (d : Deck) (self : Note) (name : string) :
  nsums_consistent (db d) = true →
  (Note.fieldUnique d self name = Ret false →
     ∃ ord conf val nid row,
       n_fmap self !! name = Some (ord, conf) ∧ f_uniq conf = true
       ∧ n_fields self !! ord = Some val ∧ val ≠ ""
       ∧ nid ≠ n_id self ∧ notes (db d) !! nid = Some row
       ∧ r_mid row = n_mid self
       ∧ splitFields (r_flds row) !! ord = Some val)
  ∧ (∀ ord conf,
       n_fmap self !! name = Some (ord, conf) →
       n_fields self !! ord = Some "" ∨ f_uniq conf = false →
       Note.fieldUnique d self name = Ret true)
  ∧ (∀ ord conf val,
       n_fmap self !! name = Some (ord, conf) →
       n_fields self !! ord = Some val →
       (∀ nid row,
          nid ≠ n_id self → notes (db d) !! nid = Some row →
          r_mid row = n_mid self →
          ∃ f, splitFields (r_flds row) !! ord = Some f ∧ f ≠ val) →
       Note.fieldUnique d self name = Ret true)
  ∧ (∀ ord conf val nid row,
       n_fmap self !! name = Some (ord, conf) →
       f_uniq conf = true →
       n_fields self !! ord = Some val →
       val ≠ "" →
       nid ≠ n_id self →
       (nid, n_mid self, fieldChecksum val) ∈ nsums (db d) →
       notes (db d) !! nid = Some row →
       splitFields (r_flds row) !! ord = Some val →
       (∀ nid' row', notes (db d) !! nid' = Some row' →
                     is_Some (splitFields (r_flds row') !! ord)) →
       r_mid row = n_mid self
       ∧ Note.fieldUnique d self name = Ret false).
Proof.
  intros Hcons. split; [|split; [|split]].
  4:{ intros ord conf val nid row Hk Hu Hv Hne Hnid Hsum Hrow Hval Hread.
      split; [by eapply nsums_consistent_mid|].
      by eapply fieldUnique_detects_duplicate. }
  - intros Hfalse.
    unfold Note.fieldUnique in Hfalse.
    destruct (n_fmap self !! name) as [[ord conf]|] eqn:Hk; [|done].
    destruct (f_uniq conf) eqn:Hu; [|done]. simpl in Hfalse.
    unfold Note.__getitem__, Note._fieldOrd in Hfalse. rewrite Hk in Hfalse.
    simpl in Hfalse. unfold getindex in Hfalse.
    destruct (n_fields self !! ord) as [val|] eqn:Hv; [|done]. simpl in Hfalse.
    destruct (truthy_str val) eqn:Ht; [|done]. simpl in Hfalse.
    rewrite id_or_0 in Hfalse.
    destruct (select_nids _ _ _ _) as [|nid0 nids] eqn:Hnids; [done|].
    apply scan_candidates_false in Hfalse as (flds & Hin & Hval).
    apply elem_of_select_flds in Hin as (nid & row & Hnid & Hrow & <-).
    rewrite <- Hnids in Hnid. apply elem_of_select_nids in Hnid as [Hne Hsum].
    exists ord, conf, val, nid, row. repeat split; try done.
    + intros ->. done.
    + by eapply nsums_consistent_mid.
  - intros ord conf Hk [Hv|Hu].
    + unfold Note.fieldUnique, Note.__getitem__, Note._fieldOrd. rewrite Hk.
      destruct (f_uniq conf); [|done]. simpl.
      by rewrite (getindex_lookup _ _ _ Hv).
    + unfold Note.fieldUnique. by rewrite Hk, Hu.
  - intros ord conf val Hk Hv Hother.
    destruct (f_uniq conf) eqn:Hu.
    2:{ unfold Note.fieldUnique. by rewrite Hk, Hu. }
    destruct (decide (val = "")) as [->|Hne].
    { unfold Note.fieldUnique, Note.__getitem__, Note._fieldOrd. rewrite Hk, Hu.
      simpl. by rewrite (getindex_lookup _ _ _ Hv). }
    rewrite (fieldUnique_run d self name ord conf val) by done.
    destruct (select_nids _ _ _ _) as [|nid0 nids] eqn:Hnids; [done|].
    apply scan_candidates_true. intros flds Hin.
    apply elem_of_select_flds in Hin as (nid & row & Hnid & Hrow & <-).
    rewrite <- Hnids in Hnid. apply elem_of_select_nids in Hnid as [Hn Hsum].
    apply (Hother nid row); [done|done|].
    by eapply nsums_consistent_mid.
Qed.

End unique.

Lemma fieldUnique_exact_match_witness :
  (∃ nid row, nid ≠ 11 ∧ notes (db Sample.deck1) !! nid = Some row
              ∧ splitFields (r_flds row) !! 0%nat = Some "hello")
  ∧ Note.fieldUnique Sample.deck1 Sample.n3 "Front" = Ret true
  ∧ Note.fieldUnique Sample.deck1 Sample.n2 "Front" = Ret false.
Proof.
  split; [|split].
  - destruct (fieldUnique_exact_match Sample.deck1 Sample.n2 "Front") as (Hfalse & _).
    { vm_compute. reflexivity. }
    destruct Hfalse as (ord & conf & val & nid & row & Hk & _ & Hv & _ & Hnid & Hrow & _ & Hval).
    { vm_compute. reflexivity. }
    vm_compute in Hk. injection Hk as <- <-.
    vm_compute in Hv. injection Hv as <-.
    exists nid, row. auto.
  - destruct (fieldUnique_exact_match Sample.deck1 Sample.n3 "Front") as (_ & _ & Hcoll & _).
    { vm_compute. reflexivity. }
    apply (Hcoll 0%nat Sample.front "world").
    + vm_compute. reflexivity.
    + reflexivity.
    + intros nid row _ Hrow _. exists "hello".
      change (notes (db Sample.deck1)) with ({[ 10 := Sample.row1 ]} : gmap Z NoteRow) in Hrow.
      apply lookup_singleton_Some in Hrow as [_ <-].
      split; [vm_compute; reflexivity|discriminate].
  - destruct (fieldUnique_exact_match Sample.deck1 Sample.n2 "Front") as (_ & _ & _ & Hdup).
    { vm_compute. reflexivity. }
    apply (Hdup 0%nat Sample.front "hello" 10 Sample.row1).
    + vm_compute. reflexivity.
    + reflexivity.
    + reflexivity.
    + discriminate.
    + simpl. lia.
    + apply list_elem_of_In. vm_compute. tauto.
    + vm_compute. reflexivity.
    + vm_compute. reflexivity.
    + intros nid' row' Hrow'.
      change (notes (db Sample.deck1)) with ({[ 10 := Sample.row1 ]} : gmap Z NoteRow) in Hrow'.
      apply lookup_singleton_Some in Hrow' as [_ <-]. vm_compute. eauto.
Defined.

(** ** Problems *)

Section problems.
Context `{Collaborators}.

#[local] Instance tuple_le_total : Total tuple_le.
Proof.
  intros [a x] [b y]. unfold tuple_le, tuple_leb. simpl.
  destruct (Nat.ltb_spec a b) as [Hab|Hab]; [by left|].
  destruct (Nat.ltb_spec b a) as [Hba|Hba]; [by right|].
  assert (a = b) as -> by lia. rewrite Nat.eqb_refl. simpl.
  destruct x as [s|], y as [t|]; simpl; auto.
  apply String.leb_total.
Qed.

Lemma tuple_le_fst (x y : nat * option string) : tuple_le x y → (x.1 ≤ y.1)%nat.
Proof.
  unfold tuple_le, tuple_leb.
  intros [Hlt|[Heq _]%andb_true_iff]%orb_true_iff.
  - apply Nat.ltb_lt in Hlt. lia.
  - apply Nat.eqb_eq in Heq. lia.
Qed.

Lemma mapM_Ret {A B} (f : A → outcome B) (l : list A) (ys : list B) :
  mapM f l = Ret ys ↔ Forall2 (λ x y, f x = Ret y) l ys.
Proof.
  revert ys. induction l as [|x l IH]; intros ys; simpl.
  - split; [intros [= <-]; constructor|by inversion 1].
  - split.
    + destruct (f x) as [y|] eqn:Hy; [|done]. simpl.
      destruct (mapM f l) as [k|] eqn:Hk; [|done]. simpl.
      intros [= <-]. constructor; [done|]. by apply IH.
    + inversion 1 as [|? y ? k Hy Hk]; subst. rewrite Hy. simpl.
      apply IH in Hk. by rewrite Hk.
Qed.

Lemma mapM_total {A B} (f : A → outcome B) (l : list A) :
  (∀ x, x ∈ l → ∃ y, f x = Ret y) → ∃ ys, mapM f l = Ret ys.
Proof.
  induction l as [|x l IH]; intros Hall; simpl; [by eexists|].
  destruct (Hall x) as [y Hy]; [apply elem_of_cons; by left|].
  destruct IH as [ys Hys]; [intros x' Hx'; apply Hall, elem_of_cons; by right|].
  exists (y :: ys). by rewrite Hy, Hys.
Qed.

(** What the loop body of [problems] returns for one field, given the
    answer of [fieldUnique] and the field's value. *)
Lemma problem_run (d : Deck) (self : Note) name ord conf u v :
  n_fmap self !! name = Some (ord, conf) →
  Note.fieldUnique d self name = Ret u →
  n_fields self !! ord = Some v →
  Note.problem d self (name, (ord, conf)) =
  Ret (ord, if negb u then Some "unique"
            else if f_req conf && negb (truthy_str v) then Some "required"
            else None).
Proof.
  intros Hk Hu Hv. unfold Note.problem. rewrite Hu. simpl.
  destruct u; [|done]. simpl.
  unfold Note.fieldComplete, Note.__getitem__, Note._fieldOrd. rewrite Hk.
  destruct (f_req conf); [|done]. simpl.
  rewrite (getindex_lookup _ _ _ Hv). simpl.
  by destruct (truthy_str v).
Qed.

Lemma ords_in_range_lookup (self : Note) name ord conf :
  Note.ords_in_range self = true →
  n_fmap self !! name = Some (ord, conf) →
  ∃ v, n_fields self !! ord = Some v.
Proof.
  intros Hr Hk. unfold Note.ords_in_range in Hr. rewrite forallb_forall in Hr.
  apply lookup_lt_is_Some_2.
  assert (Hin : (ord, conf) ∈ (map_to_list (n_fmap self)).*2).
  { apply list_elem_of_fmap. exists (name, (ord, conf)).
    split; [done|]. by apply elem_of_map_to_list. }
  apply list_elem_of_In, Hr in Hin. by apply bool_decide_eq_true_1 in Hin.
Qed.

Lemma scan_candidates_total (ord : nat) (val : string) (blobs : list string) :
  (∀ flds, flds ∈ blobs → is_Some (splitFields flds !! ord)) →
  ∃ u, Note.scan_candidates ord val blobs = Ret u.
Proof.
  induction blobs as [|x blobs IH]; intros Hall; [by eexists|].
  cbn [Note.scan_candidates].
  destruct (Hall x) as [f Hf]; [apply elem_of_cons; by left|].
  rewrite (getindex_lookup _ _ _ Hf). simpl.
  destruct (String.eqb f val); [by eexists|].
  apply IH. intros y Hy. apply Hall, elem_of_cons. by right.
Qed.

Lemma fieldUnique_total (d : Deck) (self : Note) name ord conf :
  Note.ords_in_range self = true →
  Note.candidates_readable (db d) self = true →
  n_fmap self !! name = Some (ord, conf) →
  ∃ u, Note.fieldUnique d self name = Ret u.
Proof.
  intros Hr Hc Hk.
  destruct (ords_in_range_lookup self name ord conf Hr Hk) as [v Hv].
  destruct (f_uniq conf) eqn:Hu.
  2:{ exists true. unfold Note.fieldUnique. by rewrite Hk, Hu. }
  destruct (decide (v = "")) as [->|Hne].
  { exists true. unfold Note.fieldUnique, Note.__getitem__, Note._fieldOrd.
    rewrite Hk, Hu. simpl. by rewrite (getindex_lookup _ _ _ Hv). }
  rewrite (fieldUnique_run d self name ord conf v) by done.
  destruct (select_nids _ _ _ _) as [|nid0 nids] eqn:Hnids; [by eexists|].
  apply scan_candidates_total.
  intros flds (nid & row & Hnid & Hrow & <-)%elem_of_select_flds.
  rewrite <- Hnids in Hnid. apply elem_of_select_nids in Hnid as [_ Hsum].
  unfold Note.candidates_readable in Hc. rewrite forallb_forall in Hc.
  apply list_elem_of_In, Hc in Hsum.
  unfold s_nid, s_mid in Hsum. simpl in Hsum.
  rewrite Z.eqb_refl, Hrow in Hsum. rewrite forallb_forall in Hsum.
  apply lookup_lt_is_Some_2.
  assert (Hin : (ord, conf) ∈ (map_to_list (n_fmap self)).*2).
  { apply list_elem_of_fmap. exists (name, (ord, conf)).
    split; [done|]. by apply elem_of_map_to_list. }
  apply list_elem_of_In, Hsum in Hin. by apply bool_decide_eq_true_1 in Hin.
Qed.

(** The sorted tuples of [problems] sit at the index of their ordinal
    when the ordinals are 0, 1, 2, ... *)
Lemma sorted_at_ord (self : Note) (ds : list (nat * option string)) ord kind :
  Note.fmap_contiguous self = true →
  ds.*1 ≡ₚ (map_to_list (n_fmap self)).*2.*1 →
  (ord, kind) ∈ ds →
  sorted ds !! ord = Some (ord, kind).
Proof.
  intros Hc Hperm Hin. apply bool_decide_eq_true_1 in Hc.
  assert (Hfst : (sorted ds).*1 = seq 0 (size (n_fmap self))).
  { rewrite <- Hc. apply (Sorted_unique (≤)%nat).
    - apply (Sorted_fmap _ tuple_le); [apply tuple_le_fst|].
      apply Sorted_merge_sort, _.
    - apply Sorted_merge_sort, _.
    - unfold sorted. by rewrite !merge_sort_Permutation. }
  assert (Hin' : (ord, kind) ∈ sorted ds).
  { unfold sorted. by rewrite merge_sort_Permutation. }
  apply list_elem_of_lookup in Hin' as [j Hj].
  assert (Hj1 : (sorted ds).*1 !! j = Some ord).
  { by rewrite list_lookup_fmap, Hj. }
  rewrite Hfst in Hj1. apply lookup_seq in Hj1 as [-> _]. done.
Qed.

(** Whatever the ordinals are, the entries [problems] returns are those of
    the loop, one per item of the field map, put in ascending order of
    ordinal. *)
Lemma problems_sorted_by_ord (d : Deck) (self : Note) (l : list (option string)) :
  Note.problems d self = Ret l →
  ∃ ds es,
    Forall2 (λ item e, Note.problem d self item = Ret e) (map_to_list (n_fmap self)) ds
    ∧ es ≡ₚ ds ∧ Sorted (≤)%nat es.*1 ∧ l = es.*2.
Proof.
  unfold Note.problems. intros Hl.
  destruct (mapM _ _) as [ds|] eqn:Hds; [|done].
  injection Hl as <-. exists ds, (sorted ds). repeat split.
  - by apply mapM_Ret.
  - apply merge_sort_Permutation.
  - apply (Sorted_fmap _ tuple_le); [apply tuple_le_fst|].
    apply Sorted_merge_sort, _.
Qed.

(** C4. For a note whose field ordinals are 0, 1, 2, ... and positions of
    [fields], over a store whose candidate rows can be read, [problems()]
    returns one entry per field definition, the entry at index [ord]
    being that of the field with ordinal [ord]: "unique" when
    [fieldUnique] answers [False], whether or not the field is also
    required and empty; otherwise "required" when the field is required
    and empty; otherwise [None]. *)
Theorem problems_by_position (d : Deck) (self : Note) :
  Note.fmap_contiguous self = true →
  Note.ords_in_range self = true →
  Note.candidates_readable (db d) self = true →
  ∃ l, Note.problems d self = Ret l
       ∧ length l = size (n_fmap self)
       ∧ ∀ name ord conf,
           n_fmap self !! name = Some (ord, conf) →
           ∃ u v, Note.fieldUnique d self name = Ret u
                  ∧ n_fields self !! ord = Some v
                  ∧ l !! ord =
                    Some (if negb u then Some "unique"
                          else if f_req conf && negb (truthy_str v)
                               then Some "required"
                               else None).
Proof.
  intros Hcont Hrange Hread.
  assert (Hitem : ∀ item, item ∈ map_to_list (n_fmap self) →
            ∃ u v, Note.fieldUnique d self item.1 = Ret u
                   ∧ n_fields self !! item.2.1 = Some v
                   ∧ Note.problem d self item =
                     Ret (item.2.1,
                          if negb u then Some "unique"
                          else if f_req item.2.2 && negb (truthy_str v)
                               then Some "required" else None)).
  { intros [name [ord conf]] Hk%elem_of_map_to_list. simpl.
    destruct (fieldUnique_total d self name ord conf Hrange Hread Hk) as [u Hu].
    destruct (ords_in_range_lookup self name ord conf Hrange Hk) as [v Hv].
    exists u, v. repeat split; [done|done|]. by apply problem_run. }
  destruct (mapM_total (Note.problem d self) (map_to_list (n_fmap self))) as [ds Hds].
  { intros item Hin. destruct (Hitem item Hin) as (u & v & _ & _ & ->). by eexists. }
  pose proof (proj1 (mapM_Ret _ _ _) Hds) as Hall.
  assert (Hfst : ds.*1 = (map_to_list (n_fmap self)).*2.*1).
  { clear Hds. induction Hall as [|item y items ys Hy _ IH]; [done|].
    rewrite !fmap_cons, IH.
    - f_equal. destruct (Hitem item) as (u & v & _ & _ & Hp);
        [apply elem_of_cons; by left|]. rewrite Hp in Hy. by injection Hy as <-.
    - intros i Hi. apply Hitem, elem_of_cons. by right. }
  exists (sorted ds).*2. split; [|split].
  - unfold Note.problems. by rewrite Hds.
  - rewrite length_fmap. unfold sorted. rewrite merge_sort_Permutation.
    rewrite <- (Forall2_length _ _ _ Hall). apply length_map_to_list.
  - intros name ord conf Hk.
    destruct (Hitem (name, (ord, conf))) as (u & v & Hu & Hv & Hp);
      [by apply elem_of_map_to_list|].
    cbn [fst snd] in Hu, Hv, Hp. exists u, v. repeat split; [done|done|].
    apply elem_of_map_to_list, list_elem_of_lookup in Hk as [i Hi].
    destruct (Forall2_lookup_l _ _ _ _ _ Hall Hi) as (y & Hy & Hpy).
    rewrite Hp in Hpy. injection Hpy as <-.
    rewrite list_lookup_fmap.
    erewrite sorted_at_ord; [done|done|by rewrite Hfst|].
    by eapply list_elem_of_lookup_2.
Qed.

End problems.

Lemma problems_by_position_witness :
  ∃ l, Note.problems Sample.deck1 Sample.n2 = Ret l
       ∧ l !! 0%nat = Some (Some "unique") ∧ l !! 1%nat = Some None.
Proof.
  destruct (problems_by_position Sample.deck1 Sample.n2) as (l & Hl & _ & Hpos).
  - vm_compute. reflexivity.
  - vm_compute. reflexivity.
  - vm_compute. reflexivity.
  - exists l. split; [exact Hl|]. split.
    + destruct (Hpos "Front" 0%nat Sample.front) as (u & v & Hu & Hv & ->).
      { vm_compute. reflexivity. }
      vm_compute in Hu. injection Hu as <-. reflexivity.
    + destruct (Hpos "Back" 1%nat Sample.back) as (u & v & Hu & Hv & ->).
      { vm_compute. reflexivity. }
      vm_compute in Hu. injection Hu as <-.
      vm_compute in Hv. injection Hv as <-. reflexivity.
Defined.

(** * Further properties *)

(** ** Flush: what is written, and what is left alone *)

Section flush_more.
Context `{Collaborators}.

(** The rows the loop of [updateFieldChecksums] builds all carry the
    note's id and template set. *)
Lemma checksum_rows_shape (n : Note) (vals : list (nat * Field)) (rows : list NsumRow) :
  Note.checksum_rows n vals = Ret rows →
  Forall (λ r : NsumRow, s_nid r = n_id n ∧ s_mid r = n_mid n) rows.
Proof.
  revert rows. induction vals as [|[ord conf] vals IH]; intros rows.
  - intros [= <-]. constructor.
  - cbn [Note.checksum_rows]. destruct (f_uniq conf); simpl; [|apply IH].
    destruct (getindex (n_fields n) ord) as [val|]; [|done]. simpl.
    destruct (truthy_str val); simpl; [|apply IH].
    destruct (Note.checksum_rows n vals) as [d|]; [|done]. simpl.
    intros [= <-]. constructor; [done|]. by apply IH.
Qed.

(** The loop reads [fields], [id] and [mid] of the note and nothing else. *)
Lemma checksum_rows_ext (n n' : Note) (vals : list (nat * Field)) :
  n_fields n = n_fields n' → n_id n = n_id n' → n_mid n = n_mid n' →
  Note.checksum_rows n vals = Note.checksum_rows n' vals.
Proof.
  intros Hf Hi Hm. induction vals as [|[ord conf] vals IH]; [done|].
  cbn [Note.checksum_rows]. by rewrite Hf, Hi, Hm, IH.
Qed.

(** A unique field whose ordinal is no position of [fields] makes the
    loop raise. *)
Lemma checksum_rows_raises (n : Note) (vals : list (nat * Field)) ord conf :
  (ord, conf) ∈ vals → f_uniq conf = true → (length (n_fields n) ≤ ord)%nat →
  Note.checksum_rows n vals = Raise IndexError.
Proof.
  intros Hin Hu Hlen. induction vals as [|[o c] vals IH].
  - by apply elem_of_nil in Hin.
  - cbn [Note.checksum_rows].
    apply elem_of_cons in Hin as [[= <- <-]|Hin].
    + rewrite Hu. simpl. unfold getindex.
      by rewrite (lookup_ge_None_2 _ _ Hlen).
    + specialize (IH Hin). rewrite IH.
      destruct (f_uniq c); simpl; [|done].
      unfold getindex. destruct (n_fields n !! o) as [val|]; [|done]. simpl.
      by destruct (truthy_str val).
Qed.

(** A unique field with a non-empty value is in the rows the loop
    builds. *)
Lemma checksum_rows_mem (n : Note) (vals : list (nat * Field)) rows ord conf val :
  Note.checksum_rows n vals = Ret rows →
  (ord, conf) ∈ vals → f_uniq conf = true →
  n_fields n !! ord = Some val → val ≠ "" →
  (n_id n, n_mid n, fieldChecksum val) ∈ rows.
Proof.
  intros Hrows Hin Hu Hv Hne. revert rows Hrows.
  induction vals as [|[o c] vals IH]; intros rows.
  - by apply elem_of_nil in Hin.
  - cbn [Note.checksum_rows].
    apply elem_of_cons in Hin as [[= <- <-]|Hin].
    + rewrite Hu. simpl. rewrite (getindex_lookup _ _ _ Hv). simpl.
      destruct val as [|a val]; [done|]. simpl.
      destruct (Note.checksum_rows n vals) as [d|]; [|done]. simpl.
      intros [= <-]. apply elem_of_cons. by left.
    + specialize (IH Hin).
      destruct (f_uniq c); simpl; [|by apply IH].
      destruct (getindex (n_fields n) o) as [v|]; [|done]. simpl.
      destruct (truthy_str v); simpl; [|by apply IH].
      destruct (Note.checksum_rows n vals) as [d|]; [|done]. simpl.
      intros [= <-]. apply elem_of_cons. right. by apply IH.
Qed.

(** [flush] of a cloze note with a stale card, run step by step. *)
Lemma flush_abort (mod_ : option Z) (w : World) :
  m_cloze (n_model (self w)) = true →
  Note.stale_card w = true →
  Note.flush mod_ w =
  (Raise (Exception "UI should have deleted cloze"),
   mkWorld (deck w)
     (set_newlyAdded (negb (has_cards (db (deck w)) (n_id (self w)))) (self w))).
Proof.
  intros Hcloze Hstale. unfold Note.flush, Note.model.
  unfold mbind at 1. unfold M_bind at 1. cbn [get_self].
  rewrite Hcloze. unfold mbind at 1. unfold M_bind at 1.
  by rewrite clozePreFlush_run, Hstale.
Qed.

(** What a [flush] that returns has done. *)
Lemma flush_Ret_inv (mod_ : option Z) (w w' : World) :
  Note.flush mod_ w = (Ret tt, w') →
  ∃ f rows,
    n_fields (self w) !! models_sortIdx (n_model (self w)) = Some f
    ∧ Note.checksum_rows (self w) (snd <$> map_to_list (n_fmap (self w))) = Ret rows
    ∧ self w' = Note.stamped mod_ w
    ∧ notes (db (deck w')) =
        <[n_id (self w) :=
            Note.row_of (Note.stamped mod_ w)
              (default 0 (n_mod (Note.stamped mod_ w)))
              (default 0 (n_usn (Note.stamped mod_ w))) f]> (notes (db (deck w)))
    ∧ nsums (db (deck w')) =
        filter (λ r : NsumRow, s_nid r ≠ n_id (self w)) (nsums (db (deck w))) ++ rows
    ∧ (m_cloze (n_model (self w)) && has_cards (db (deck w)) (n_id (self w)) = false →
       cards (db (deck w')) = cards (db (deck w)))
    ∧ deck_usn (deck w') = deck_usn (deck w)
    ∧ registered (deck w') = registered (deck w) ++ [n_tags (self w)]
    ∧ genCards_calls (deck w') =
        genCards_calls (deck w) ++
          (if m_cloze (n_model (self w)) && has_cards (db (deck w)) (n_id (self w))
           then [[n_id (self w)]] else []).
Proof.
  intros Hflush.
  assert (Hpre : m_cloze (n_model (self w)) = true → Note.stale_card w = false).
  { intros Hcloze. destruct (Note.stale_card w) eqn:Hstale; [|done].
    by rewrite flush_abort in Hflush. }
  rewrite flush_run in Hflush by done. cbv zeta in Hflush.
  destruct (index_rows_stamped mod_ w) as (_ & _ & Hid & Hfl & Hfm & Hm).
  assert (Hmid : n_mid (Note.stamped mod_ w) = n_mid (self w)).
  { unfold Note.stamped. by destruct (m_cloze (n_model (self w))). }
  assert (Htags : n_tags (Note.stamped mod_ w) = n_tags (self w)).
  { unfold Note.stamped. by destruct (m_cloze (n_model (self w))). }
  rewrite (checksum_rows_ext _ (self w)) in Hflush by done.
  remember (Note.stamped mod_ w) as n eqn:Hn. clear Hn.
  rewrite Hfl, Hm, Hfm in Hflush.
  destruct (n_fields (self w) !! _) as [f|]; [|done].
  destruct (Note.checksum_rows (self w) _) as [rows|]; [|done].
  exists f, rows. injection Hflush as <-.
  cbn [self deck]. rewrite Hid, Htags.
  destruct (m_cloze (n_model (self w)) && has_cards (db (deck w)) (n_id (self w)));
    cbn; rewrite ?app_nil_r; repeat split; done.
Qed.

End flush_more.

Section flush_properties.
Context `{Collaborators}.

Lemma stamped_attrs (mod_ : option Z) (w : World) :
  n_id (Note.stamped mod_ w) = n_id (self w)
  ∧ n_guid (Note.stamped mod_ w) = n_guid (self w)
  ∧ n_mid (Note.stamped mod_ w) = n_mid (self w)
  ∧ n_gid (Note.stamped mod_ w) = n_gid (self w)
  ∧ n_tags (Note.stamped mod_ w) = n_tags (self w)
  ∧ n_fields (Note.stamped mod_ w) = n_fields (self w)
  ∧ n_flags (Note.stamped mod_ w) = n_flags (self w)
  ∧ n_data (Note.stamped mod_ w) = n_data (self w)
  ∧ n_model (Note.stamped mod_ w) = n_model (self w)
  ∧ n_fmap (Note.stamped mod_ w) = n_fmap (self w)
  ∧ n_usn (Note.stamped mod_ w) = Some (deck_usn (deck w))
  ∧ is_Some (n_mod (Note.stamped mod_ w)).
Proof.
  unfold Note.stamped. destruct (m_cloze (n_model (self w))); cbn; repeat split; eauto.
Qed.

Lemma checksum_rows_Raise (n : Note) (vals : list (nat * Field)) (e : exn) :
  Note.checksum_rows n vals = Raise e → e = IndexError.
Proof.
  induction vals as [|[ord conf] vals IH]; [done|].
  cbn [Note.checksum_rows]. destruct (f_uniq conf); simpl; [|done].
  unfold getindex. destruct (n_fields n !! ord) as [val|]; simpl; [|by intros [= <-]].
  destruct (truthy_str val); simpl; [|done].
  destruct (Note.checksum_rows n vals) as [d|e']; simpl; [done|].
  intros [= <-]. by apply IH.
Qed.

Lemma filter_ne_own_rows (id : Z) (rows : list NsumRow) :
  Forall (λ r : NsumRow, s_nid r = id) rows →
  filter (λ r : NsumRow, s_nid r ≠ id) rows = []
  ∧ filter (λ r : NsumRow, s_nid r = id) rows = rows.
Proof.
  induction 1 as [|r rows Hr _ [IH1 IH2]]; [done|]. split.
  - rewrite filter_cons_False; [done|]. tauto.
  - rewrite filter_cons_True by done. by rewrite IH2.
Qed.

(** Every way [flush] can end. *)
Lemma flush_any_inv (mod_ : option Z) (w : World) (r : outcome unit) (w' : World) :
  Note.flush mod_ w = (r, w') →
  (m_cloze (n_model (self w)) = true
   ∧ r = Raise (Exception "UI should have deleted cloze")
   ∧ deck w' = deck w
   ∧ self w' = set_newlyAdded (negb (has_cards (db (deck w)) (n_id (self w)))) (self w))
  ∨ (self w' = Note.stamped mod_ w
     ∧ ((r = Raise IndexError ∧ deck w' = deck w)
        ∨ (r = Raise IndexError
           ∧ ∃ row, deck w' =
               set_db (delete_nsums (n_id (self w))
                         (set_notes (<[n_id (self w) := row]> (notes (db (deck w))))
                                    (db (deck w)))) (deck w))
        ∨ r = Ret tt)).
Proof.
  intros Hflush.
  destruct (m_cloze (n_model (self w)) && Note.stale_card w) eqn:Hab.
  - apply andb_true_iff in Hab as [Hcloze Hstale].
    rewrite flush_abort in Hflush by done. injection Hflush as <- <-.
    left. by repeat split.
  - right.
    assert (Hpre : m_cloze (n_model (self w)) = true → Note.stale_card w = false).
    { intros Hcloze. by rewrite Hcloze in Hab. }
    rewrite flush_run in Hflush by done. cbv zeta in Hflush.
    destruct (stamped_attrs mod_ w) as (Hid & _).
    remember (Note.stamped mod_ w) as n eqn:Hn. clear Hn.
    destruct (n_fields n !! _) as [f|].
    2:{ injection Hflush as <- <-. split; [done|]. left. by split. }
    destruct (Note.checksum_rows n _) as [rows|e] eqn:Hrows.
    + injection Hflush as <- <-. split; [done|]. by right; right.
    + apply checksum_rows_Raise in Hrows as ->.
      injection Hflush as <- <-. split; [done|]. right; left.
      split; [done|]. rewrite Hid. by eexists.
Qed.

(** Whatever its outcome, [flush] changes neither the id nor the model
    of the note, and it changes the cards only by calling the card
    generator, which it does for cloze notes that have a card. *)
Lemma flush_leaves_rest_alone_aux (mod_ : option Z) (w : World) (r : outcome unit) (w' : World) :
  Note.flush mod_ w = (r, w') →
  (m_cloze (n_model (self w)) && has_cards (db (deck w)) (n_id (self w)) = false →
   cards (db (deck w')) = cards (db (deck w))
   ∧ genCards_calls (deck w') = genCards_calls (deck w))
  ∧ n_id (self w') = n_id (self w)
  ∧ n_model (self w') = n_model (self w).
Proof.
  intros Hflush.
  destruct (stamped_attrs mod_ w) as (Hid & _ & _ & _ & _ & _ & _ & _ & Hm & _).
  destruct (flush_any_inv mod_ w r w' Hflush)
    as [(_ & _ & Hdeck & Hself)|[Hself Hcases]].
  { by rewrite Hdeck, Hself. }
  rewrite Hself, Hid, Hm.
  destruct Hcases as [[_ Hdeck]|[[_ [row Hdeck]]|Hret]].
  - by rewrite Hdeck.
  - by rewrite Hdeck.
  - subst r. destruct (flush_Ret_inv mod_ w w' Hflush) as (f & rows & Hrest).
    destruct Hrest as (_ & _ & _ & _ & _ & Hcards & _ & _ & Hgen).
    split; [|done]. intros Hno. split; [by apply Hcards|].
    by rewrite Hgen, Hno, app_nil_r.
Qed.

(** X1. A [flush] that returns can be read back: [load] on the state it
    leaves returns, with the same id, guid, template set, group, flags
    and data, the [mod] and [usn] the flush stamped, the model the
    provider has for the template set, [fields] equal to
    [splitFields(joinFields(fields))] and [tags] equal to the tag
    service's [split(join(canonify(tags)))] of the flushed note. *)
Theorem flush_then_load (mod_ : option Z) (w w' : World) :
  Note.flush mod_ w = (Ret tt, w') →
  ∃ n, Note.load w' = (Ret tt, mkWorld (deck w') n)
       ∧ n_id n = n_id (self w)
       ∧ n_guid n = n_guid (self w)
       ∧ n_mid n = n_mid (self w)
       ∧ n_gid n = n_gid (self w)
       ∧ n_flags n = n_flags (self w)
       ∧ n_data n = n_data (self w)
       ∧ n_mod n = n_mod (self w')
       ∧ n_usn n = n_usn (self w')
       ∧ n_model n = models_get (n_mid (self w))
       ∧ n_fields n = splitFields (joinFields (n_fields (self w)))
       ∧ n_tags n = tags_split (tags_join (tags_canonify (n_tags (self w)))).
Proof.
  intros Hflush.
  destruct (flush_Ret_inv mod_ w w' Hflush) as (f & rows & _ & _ & Hself & Hnotes & _).
  destruct (stamped_attrs mod_ w)
    as (Hid & Hguid & Hmid & Hgid & Htags & Hfl & Hflags & Hdata & _ & _ & Husn & [m Hmod]).
  rewrite Hself. remember (Note.stamped mod_ w) as n eqn:Hn. clear Hn.
  eexists. split.
  - unfold Note.load, select_note. rewrite Hnotes, Hself, Hid, lookup_insert_eq.
    reflexivity.
  - cbn. unfold Note.stringTags, Note.joinedFields.
    rewrite Hguid, Hmid, Hgid, Htags, Hfl, Hflags, Hdata, Husn, Hmod.
    repeat split.
Qed.

(** X2. Whatever its outcome, [flush] leaves alone the deck's update
    sequence, the rows of every other note in [notes] and [nsums], and,
    on the note itself, every attribute other than [mod], [usn] and
    [newlyAdded]. It writes nothing to the [cards] table itself: the
    table can change only through the card generator, so it is unchanged
    whenever the flush has sent the generator no request. *)
Theorem flush_leaves_rest_alone (mod_ : option Z) (w : World) (r : outcome unit) (w' : World) :
  Note.flush mod_ w = (r, w') →
  (genCards_calls (deck w') = genCards_calls (deck w) →
   cards (db (deck w')) = cards (db (deck w)))
  ∧ deck_usn (deck w') = deck_usn (deck w)
  ∧ (∀ j, j ≠ n_id (self w) →
          notes (db (deck w')) !! j = notes (db (deck w)) !! j)
  ∧ filter (λ r : NsumRow, s_nid r ≠ n_id (self w)) (nsums (db (deck w')))
    = filter (λ r : NsumRow, s_nid r ≠ n_id (self w)) (nsums (db (deck w)))
  ∧ n_id (self w') = n_id (self w)
  ∧ n_guid (self w') = n_guid (self w)
  ∧ n_mid (self w') = n_mid (self w)
  ∧ n_gid (self w') = n_gid (self w)
  ∧ n_tags (self w') = n_tags (self w)
  ∧ n_fields (self w') = n_fields (self w)
  ∧ n_flags (self w') = n_flags (self w)
  ∧ n_data (self w') = n_data (self w)
  ∧ n_model (self w') = n_model (self w)
  ∧ n_fmap (self w') = n_fmap (self w).
Proof.
  intros Hflush.
  destruct (stamped_attrs mod_ w)
    as (Hid & Hguid & Hmid & Hgid & Htags & Hfl & Hflags & Hdata & Hm & Hfm & _).
  destruct (flush_any_inv mod_ w r w' Hflush)
    as [(_ & _ & Hdeck & Hself)|[Hself Hcases]].
  { rewrite Hdeck, Hself. repeat split. }
  rewrite Hself, Hid, Hguid, Hmid, Hgid, Htags, Hfl, Hflags, Hdata, Hm, Hfm.
  destruct Hcases as [[_ Hdeck]|[[_ [row Hdeck]]|Hret]].
  - rewrite Hdeck. repeat split.
  - rewrite Hdeck. cbn. repeat split.
    + intros j Hj. by rewrite lookup_insert_ne.
    + apply filter_idemp_ne.
  - subst r.
    destruct (flush_Ret_inv mod_ w w' Hflush)
      as (f & rows & _ & Hrows & _ & Hnotes & Hnsums & Hcards & Husn & _ & Hgen).
    rewrite Hnotes, Hnsums, Husn. repeat split.
    + intros Hsame. apply Hcards. rewrite Hsame in Hgen.
      destruct (m_cloze _ && has_cards _ _); [|done].
      apply (f_equal length) in Hgen. rewrite length_app in Hgen.
      cbn in Hgen. lia.
    + intros j Hj. by rewrite lookup_insert_ne.
    + rewrite filter_app, filter_idemp_ne.
      apply checksum_rows_shape in Hrows.
      destruct (filter_ne_own_rows (n_id (self w)) rows) as [-> _].
      { eapply Forall_impl; [exact Hrows|]. by intros r' [? _]. }
      by rewrite app_nil_r.
Qed.

Lemma row_of_ext (n n' : Note) (smod susn : Z) (f : string) :
  n_guid n = n_guid n' → n_mid n = n_mid n' → n_gid n = n_gid n' →
  n_tags n = n_tags n' → n_fields n = n_fields n' →
  n_flags n = n_flags n' → n_data n = n_data n' →
  Note.row_of n smod susn f = Note.row_of n' smod susn f.
Proof.
  intros Hg Hm Hgi Ht Hf Hfl Hd.
  unfold Note.row_of, Note.stringTags, Note.joinedFields.
  by rewrite Hg, Hm, Hgi, Ht, Hf, Hfl, Hd.
Qed.

(** X3. The row [flush] writes holds the note as it is in memory, with
    the tags canonified and joined by the tag service, the fields joined
    by [joinFields], and the sort field with its HTML stripped; the tag
    registry receives the in-memory tag list, once, as it is, and the
    in-memory tag list is not replaced by the canonified one. *)
Theorem flush_writes_row (mod_ : option Z) (w w' : World) :
  Note.flush mod_ w = (Ret tt, w') →
  ∃ row f,
    notes (db (deck w')) !! n_id (self w) = Some row
    ∧ n_fields (self w) !! models_sortIdx (n_model (self w)) = Some f
    ∧ r_sfld row = stripHTML f
    ∧ r_flds row = joinFields (n_fields (self w))
    ∧ r_tags row = tags_join (tags_canonify (n_tags (self w)))
    ∧ r_guid row = n_guid (self w)
    ∧ r_mid row = n_mid (self w)
    ∧ r_gid row = n_gid (self w)
    ∧ r_flags row = n_flags (self w)
    ∧ r_data row = n_data (self w)
    ∧ Some (r_mod row) = n_mod (self w')
    ∧ Some (r_usn row) = n_usn (self w')
    ∧ n_tags (self w') = n_tags (self w)
    ∧ registered (deck w') = registered (deck w) ++ [n_tags (self w)].
Proof.
  intros Hflush.
  destruct (flush_Ret_inv mod_ w w' Hflush)
    as (f & rows & Hf & _ & Hself & Hnotes & _ & _ & _ & Hreg & _).
  destruct (stamped_attrs mod_ w)
    as (Hid & Hguid & Hmid & Hgid & Htags & Hfl & Hflags & Hdata & _ & _ & Husn & [m Hmod]).
  rewrite Hself, Hnotes, Hreg, lookup_insert_eq.
  remember (Note.stamped mod_ w) as n eqn:Hn. clear Hn.
  eexists _, f. split; [reflexivity|]. split; [done|].
  cbn. unfold Note.stringTags, Note.joinedFields.
  rewrite Hguid, Hmid, Hgid, Htags, Hfl, Hflags, Hdata, Husn, Hmod.
  repeat split.
Qed.

(** X4. Flushing a note again does not pile up index rows: after a
    second [flush] that returns, [nsums] is exactly what the first one
    left, whatever the overrides; and when both flushes stamped the same
    [mod], so is [notes]. *)
Theorem flush_twice_same_tables (mod1 mod2 : option Z) (w w1 w2 : World) :
  Note.flush mod1 w = (Ret tt, w1) →
  Note.flush mod2 w1 = (Ret tt, w2) →
  nsums (db (deck w2)) = nsums (db (deck w1))
  ∧ (n_mod (self w2) = n_mod (self w1) →
     notes (db (deck w2)) = notes (db (deck w1))).
Proof.
  intros Hflush1 Hflush2.
  destruct (flush_Ret_inv mod1 w w1 Hflush1)
    as (f1 & rows1 & Hf1 & Hrows1 & Hself1 & Hnotes1 & Hnsums1 & _ & Husn1 & _).
  destruct (flush_Ret_inv mod2 w1 w2 Hflush2)
    as (f2 & rows2 & Hf2 & Hrows2 & Hself2 & Hnotes2 & Hnsums2 & _).
  destruct (stamped_attrs mod1 w)
    as (Hid & Hguid & Hmid & Hgid & Htags & Hfl & Hflags & Hdata & Hm & Hfm & Hu1 & [m1 Hmod1]).
  destruct (stamped_attrs mod2 w1)
    as (Hid2 & Hguid2 & Hmid2 & Hgid2 & Htags2 & Hfl2 & Hflags2 & Hdata2 & _ & _ & Hu2 & [m2 Hmod2]).
  rewrite <- Hself1 in Hid, Hguid, Hmid, Hgid, Htags, Hfl, Hflags, Hdata, Hm, Hfm, Hu1, Hmod1.
  assert (rows2 = rows1) as ->.
  { rewrite Hfm, (checksum_rows_ext _ (self w)) in Hrows2 by done. congruence. }
  assert (f2 = f1) as ->.
  { rewrite Hfl, Hm in Hf2. congruence. }
  split.
  - rewrite Hnsums2, Hnsums1, Hid, filter_app, filter_idemp_ne.
    apply checksum_rows_shape in Hrows1.
    destruct (filter_ne_own_rows (n_id (self w)) rows1) as [-> _].
    { eapply Forall_impl; [exact Hrows1|]. by intros r' [? _]. }
    by rewrite app_nil_r.
  - intros Hsame. rewrite Hself2, Hmod2 in Hsame.
    rewrite Hnotes2, Hnotes1, Hid, insert_insert_eq. f_equal.
    rewrite Hmod2, Hu2, Husn1. rewrite <- Hself1, Hmod1, Hu1. cbn.
    assert (m2 = m1) as -> by congruence.
    apply row_of_ext; rewrite ?Hself1 in *; congruence.
Qed.

(** X5. [flush] keeps the index in step with the notes: if every row of
    [nsums] names the template set of the note it points to before a
    flush that returns, the same holds after. *)
Theorem flush_keeps_index_consistent (mod_ : option Z) (w w' : World) :
  nsums_consistent (db (deck w)) = true →
  Note.flush mod_ w = (Ret tt, w') →
  nsums_consistent (db (deck w')) = true.
Proof.
  intros Hcons Hflush.
  destruct (flush_Ret_inv mod_ w w' Hflush)
    as (f & rows & _ & Hrows & _ & Hnotes & Hnsums & _).
  destruct (stamped_attrs mod_ w) as (_ & _ & Hmid & _).
  remember (Note.stamped mod_ w) as n eqn:Hn. clear Hn.
  apply checksum_rows_shape in Hrows.
  unfold nsums_consistent in *. rewrite Hnsums, Hnotes, forallb_app.
  apply andb_true_iff. split; apply forallb_forall.
  - intros r [Hne Hin]%list_elem_of_In%list_elem_of_filter.
    rewrite lookup_insert_ne by done.
    rewrite forallb_forall in Hcons. by apply Hcons, list_elem_of_In.
  - intros r Hin%list_elem_of_In.
    rewrite Forall_forall in Hrows. destruct (Hrows r Hin) as [-> ->].
    rewrite lookup_insert_eq. cbn. rewrite Hmid. apply Z.eqb_refl.
Qed.

(** X6. When the model's sort index is no position of [fields], a flush
    that got past the pre-flush hook raises [IndexError] before any
    write: the deck is untouched, but [mod] and [usn] have already been
    stamped on the note. *)
Theorem flush_sort_index_out_of_range (mod_ : option Z) (w : World) :
  (m_cloze (n_model (self w)) = true → Note.stale_card w = false) →
  (length (n_fields (self w)) ≤ models_sortIdx (n_model (self w)))%nat →
  ∃ w', Note.flush mod_ w = (Raise IndexError, w')
        ∧ deck w' = deck w
        ∧ n_usn (self w') = Some (deck_usn (deck w))
        ∧ n_mod (self w') =
          Some (match mod_ with
                | Some m => if truthy_int m then m else intTime
                | None => intTime
                end).
Proof.
  intros Hpre Hlen. eexists. split.
  - rewrite flush_run by done. cbv zeta.
    destruct (stamped_attrs mod_ w) as (_ & _ & _ & _ & _ & Hfl & _ & _ & Hm & _).
    rewrite Hfl, Hm, (lookup_ge_None_2 _ _ Hlen). reflexivity.
  - cbn [deck self]. unfold Note.stamped. repeat split.
Qed.

(** X7. [flush] is not atomic. When a unique field's ordinal is no
    position of [fields], a flush that got past the pre-flush hook and
    the sort field raises [IndexError] in the index rebuild, after the
    note's row has been written and its index rows deleted: the row is
    in [notes], [nsums] has no row for the note, and neither the tag
    registry nor the card generator has been called. *)
Theorem flush_unique_ordinal_out_of_range
    (mod_ : option Z) (w : World) (name : string) (ord : nat) (conf : Field) :
  (m_cloze (n_model (self w)) = true → Note.stale_card w = false) →
  (models_sortIdx (n_model (self w)) < length (n_fields (self w)))%nat →
  n_fmap (self w) !! name = Some (ord, conf) →
  f_uniq conf = true →
  (length (n_fields (self w)) ≤ ord)%nat →
  ∃ w' row,
    Note.flush mod_ w = (Raise IndexError, w')
    ∧ notes (db (deck w')) !! n_id (self w) = Some row
    ∧ r_flds row = joinFields (n_fields (self w))
    ∧ nsums (db (deck w')) =
        filter (λ r : NsumRow, s_nid r ≠ n_id (self w)) (nsums (db (deck w)))
    ∧ filter (λ r : NsumRow, s_nid r = n_id (self w)) (nsums (db (deck w'))) = []
    ∧ registered (deck w') = registered (deck w)
    ∧ genCards_calls (deck w') = genCards_calls (deck w).
Proof.
  intros Hpre Hsort Hk Hu Hlen.
  destruct (lookup_lt_is_Some_2 _ _ Hsort) as [f Hf].
  destruct (stamped_attrs mod_ w) as (Hid & _ & _ & _ & _ & Hfl & _ & _ & Hm & Hfm & _).
  assert (Hraise : Note.checksum_rows (Note.stamped mod_ w)
                     (snd <$> map_to_list (n_fmap (Note.stamped mod_ w)))
                   = Raise IndexError).
  { apply (checksum_rows_raises _ _ ord conf); [|done|by rewrite Hfl].
    rewrite Hfm. apply list_elem_of_fmap. exists (name, (ord, conf)).
    split; [done|]. by apply elem_of_map_to_list. }
  pose proof (flush_run mod_ w Hpre) as Hrun. cbv zeta in Hrun.
  rewrite Hfl, Hm, Hf, Hraise in Hrun. clear Hraise.
  remember (Note.stamped mod_ w) as n eqn:Hn in *. clear Hn.
  eexists _, _. split; [exact Hrun|].
  cbn. rewrite Hid, lookup_insert_eq.
  split; [reflexivity|]. cbn. unfold Note.joinedFields. rewrite Hfl.
  repeat split. apply filter_nid_delete.
Qed.

(** X8. A flush makes the note visible to the uniqueness check of other
    notes. After a flush that returns, of a note holding a non-empty
    string in a unique field, [fieldUnique] of any other note (another
    id, the same template set) that holds the same string at the same
    ordinal answers [False], provided the field codec gives the flushed
    fields back and the rows already stored have a field at that
    ordinal. *)
Theorem flush_then_fieldUnique_conflict
    (mod_ : option Z) (w w' : World) (other : Note)
    (name name' : string) (ord : nat) (conf conf' : Field) (val : string) :
  Note.flush mod_ w = (Ret tt, w') →
  n_fmap (self w) !! name = Some (ord, conf) →
  f_uniq conf = true →
  n_fields (self w) !! ord = Some val →
  val ≠ "" →
  splitFields (joinFields (n_fields (self w))) = n_fields (self w) →
  (∀ nid row, notes (db (deck w)) !! nid = Some row →
              is_Some (splitFields (r_flds row) !! ord)) →
  n_id other ≠ n_id (self w) →
  n_mid other = n_mid (self w) →
  n_fmap other !! name' = Some (ord, conf') →
  f_uniq conf' = true →
  n_fields other !! ord = Some val →
  Note.fieldUnique (deck w') other name' = Ret false.
Proof.
  intros Hflush Hk Hu Hv Hne Hcodec Hread Hid Hmid Hk' Hu' Hv'.
  destruct (flush_Ret_inv mod_ w w' Hflush)
    as (f & rows & _ & Hrows & _ & Hnotes & Hnsums & _).
  destruct (stamped_attrs mod_ w) as (_ & _ & _ & _ & _ & Hfl & _).
  assert (Hrow : (n_id (self w), n_mid (self w), fieldChecksum val) ∈ rows).
  { apply (checksum_rows_mem _ _ _ ord conf val Hrows); try done.
    apply list_elem_of_fmap. exists (name, (ord, conf)).
    split; [done|]. by apply elem_of_map_to_list. }
  eapply (fieldUnique_detects_duplicate (deck w') other name' ord conf' val
            (n_id (self w))); try done.
  - rewrite Hmid, Hnsums. apply elem_of_app. by right.
  - rewrite Hnotes. apply lookup_insert_eq.
  - cbn. unfold Note.joinedFields. by rewrite Hfl, Hcodec.
  - intros nid' row'. rewrite Hnotes.
    destruct (decide (nid' = n_id (self w))) as [->|Hne'].
    + rewrite lookup_insert_eq. intros [= <-]. cbn.
      unfold Note.joinedFields. rewrite Hfl, Hcodec. by eexists.
    + rewrite lookup_insert_ne by done. apply Hread.
Qed.

(** X9. A flush of a note whose model is not cloze never calls the card
    generator, never assigns [newlyAdded], and ends either normally or
    with [IndexError]; it never raises the exception of the cloze
    hook. *)
Theorem flush_non_cloze (mod_ : option Z) (w : World) (r : outcome unit) (w' : World) :
  m_cloze (n_model (self w)) = false →
  Note.flush mod_ w = (r, w') →
  genCards_calls (deck w') = genCards_calls (deck w)
  ∧ n_newlyAdded (self w') = n_newlyAdded (self w)
  ∧ (r = Ret tt ∨ r = Raise IndexError).
Proof.
  intros Hcloze Hflush.
  destruct (flush_any_inv mod_ w r w' Hflush)
    as [(Hc & _)|[Hself Hcases]]; [congruence|].
  assert (Hnew : n_newlyAdded (self w') = n_newlyAdded (self w)).
  { rewrite Hself. unfold Note.stamped. by rewrite Hcloze. }
  destruct Hcases as [[Hr Hdeck]|[[Hr [row Hdeck]]|Hr]]; subst r.
  - rewrite Hdeck. auto.
  - rewrite Hdeck. auto.
  - destruct (flush_Ret_inv mod_ w w' Hflush) as (f & rows & Hrest).
    destruct Hrest as (_ & _ & _ & _ & _ & _ & _ & _ & Hgen).
    rewrite Hgen, Hcloze. cbn. rewrite app_nil_r. auto.
Qed.

End flush_properties.

Lemma flush_then_load_witness :
  ∃ n, Note.load (Note.flush None Sample.w_basic).2
       = (Ret tt, mkWorld (deck (Note.flush None Sample.w_basic).2) n)
       ∧ n_fields n = ["hello"; "world"]
       ∧ n_mod n = Some 1300000000.
Proof.
  destruct (flush_then_load None Sample.w_basic (Note.flush None Sample.w_basic).2)
    as (n & Hload & Hrest).
  - vm_compute. reflexivity.
  - exists n. split; [exact Hload|].
    destruct Hrest as (_ & _ & _ & _ & _ & _ & Hmod & _ & _ & Hf & _).
    rewrite Hf, Hmod. split; vm_compute; reflexivity.
Defined.

Lemma flush_leaves_rest_alone_witness :
  cards (db (deck (Note.flush None (mkWorld Sample.deck_existing Sample.n1)).2))
  = [mkCardRow 100 20 0]
  ∧ n_fields (self (Note.flush None (mkWorld Sample.deck_existing Sample.n1)).2)
    = ["hello"; "world"].
Proof.
  destruct (flush_leaves_rest_alone None (mkWorld Sample.deck_existing Sample.n1)
              (Note.flush None (mkWorld Sample.deck_existing Sample.n1)).1
              (Note.flush None (mkWorld Sample.deck_existing Sample.n1)).2)
    as (Hcards & _ & _ & _ & _ & _ & _ & _ & _ & Hf & _).
  - apply surjective_pairing.
  - rewrite Hcards, Hf.
    + split; reflexivity.
    + vm_compute. reflexivity.
Defined.

Lemma flush_writes_row_witness :
  ∃ row, notes (db (deck (Note.flush None Sample.w_basic).2)) !! 10 = Some row
         ∧ r_sfld row = "hello"
         ∧ registered (deck (Note.flush None Sample.w_basic).2) = [["foo"; "Bar"; "FOO"]].
Proof.
  destruct (flush_writes_row None Sample.w_basic (Note.flush None Sample.w_basic).2)
    as (row & f & Hrow & Hf & Hsfld & Hrest).
  - vm_compute. reflexivity.
  - exists row. split; [exact Hrow|].
    vm_compute in Hf. injection Hf as <-.
    split; [rewrite Hsfld; reflexivity|].
    destruct Hrest as (_ & _ & _ & _ & _ & _ & _ & _ & _ & _ & Hreg).
    rewrite Hreg. reflexivity.
Defined.

Lemma flush_twice_same_tables_witness :
  nsums (db (deck (Note.flush (Some 5) (Note.flush None Sample.w_basic).2).2))
  = [(10, 1, 5)].
Proof.
  destruct (flush_twice_same_tables None (Some 5) Sample.w_basic
              (Note.flush None Sample.w_basic).2
              (Note.flush (Some 5) (Note.flush None Sample.w_basic).2).2)
    as [Hns _].
  - vm_compute. reflexivity.
  - vm_compute. reflexivity.
  - rewrite Hns. vm_compute. reflexivity.
Defined.

Lemma flush_keeps_index_consistent_witness :
  nsums_consistent (db (deck (Note.flush None Sample.w_basic).2)) = true.
Proof.
  apply (flush_keeps_index_consistent None Sample.w_basic).
  - vm_compute. reflexivity.
  - vm_compute. reflexivity.
Defined.

Lemma flush_sort_index_out_of_range_witness :
  ∃ w', Note.flush None (mkWorld Sample.deck1 Sample.n_nofields) = (Raise IndexError, w')
        ∧ deck w' = Sample.deck1
        ∧ n_mod (self w') = Some 1300000000.
Proof.
  destruct (flush_sort_index_out_of_range None (mkWorld Sample.deck1 Sample.n_nofields))
    as (w' & Hflush & Hdeck & _ & Hmod).
  - intros Hcloze. vm_compute in Hcloze. discriminate Hcloze.
  - simpl. lia.
  - exists w'. repeat split; assumption.
Defined.

Lemma flush_unique_ordinal_out_of_range_witness :
  ∃ w' row, Note.flush None (mkWorld Sample.deck1 Sample.n_short) = (Raise IndexError, w')
            ∧ notes (db (deck w')) !! 31 = Some row
            ∧ r_flds row = "a"
            ∧ registered (deck w') = [].
Proof.
  destruct (flush_unique_ordinal_out_of_range None (mkWorld Sample.deck1 Sample.n_short)
              "Extra" 5%nat (mkField "Extra" true false))
    as (w' & row & Hflush & Hrow & Hflds & _ & _ & Hreg & _).
  - intros Hcloze. vm_compute in Hcloze. discriminate Hcloze.
  - simpl. lia.
  - vm_compute. reflexivity.
  - reflexivity.
  - simpl. lia.
  - exists w', row. repeat split; assumption.
Defined.

Lemma flush_then_fieldUnique_conflict_witness :
  Note.fieldUnique (deck (Note.flush None Sample.w_basic).2) Sample.n2 "Front" = Ret false.
Proof.
  apply (flush_then_fieldUnique_conflict None Sample.w_basic
           (Note.flush None Sample.w_basic).2 Sample.n2
           "Front" "Front" 0%nat Sample.front Sample.front "hello").
  - vm_compute. reflexivity.
  - vm_compute. reflexivity.
  - reflexivity.
  - reflexivity.
  - discriminate.
  - vm_compute. reflexivity.
  - intros nid row Hrow. vm_compute in Hrow. discriminate Hrow.
  - simpl. lia.
  - reflexivity.
  - vm_compute. reflexivity.
  - reflexivity.
  - reflexivity.
Defined.

Lemma flush_non_cloze_witness :
  genCards_calls (deck (Note.flush None Sample.w_basic).2) = []
  ∧ n_newlyAdded (self (Note.flush None Sample.w_basic).2) = None.
Proof.
  destruct (flush_non_cloze None Sample.w_basic
              (Note.flush None Sample.w_basic).1 (Note.flush None Sample.w_basic).2)
    as (Hgen & Hnew & _).
  - reflexivity.
  - apply surjective_pairing.
  - rewrite Hgen, Hnew. split; reflexivity.
Defined.

(** ** The cloze hooks across flushes *)

Section cloze_more.
Context `{Collaborators}.

(** X10. After any flush of a cloze note, aborted or not, [newlyAdded]
    tells whether the note had no card when the flush began. *)
Theorem flush_cloze_sets_newlyAdded (mod_ : option Z) (w : World) (r : outcome unit) (w' : World) :
  m_cloze (n_model (self w)) = true →
  Note.flush mod_ w = (r, w') →
  n_newlyAdded (self w') = Some (negb (has_cards (db (deck w)) (n_id (self w)))).
Proof.
  intros Hcloze Hflush.
  destruct (flush_any_inv mod_ w r w' Hflush) as [(_ & _ & _ & ->)|[-> _]]; [done|].
  unfold Note.stamped. by rewrite Hcloze.
Qed.

(** X11. A flush of a cloze note that has no card sends the card
    generator no request and leaves the [cards] table as it was,
    whatever its outcome. The note therefore still has no card after the
    flush, and a further flush sends no request either: [flush] alone
    never gets a first card generated. *)
Theorem flush_without_cards_never_requests
    (mod_ : option Z) (w : World) (r : outcome unit) (w' : World) :
  m_cloze (n_model (self w)) = true →
  has_cards (db (deck w)) (n_id (self w)) = false →
  Note.flush mod_ w = (r, w') →
  genCards_calls (deck w') = genCards_calls (deck w)
  ∧ cards (db (deck w')) = cards (db (deck w))
  ∧ m_cloze (n_model (self w')) = true
  ∧ has_cards (db (deck w')) (n_id (self w')) = false
  ∧ ∀ mod2 r2 w2,
      Note.flush mod2 w' = (r2, w2) →
      genCards_calls (deck w2) = genCards_calls (deck w).
Proof.
  intros Hcloze Hnone Hflush.
  destruct (flush_leaves_rest_alone_aux mod_ w r w' Hflush) as (Hno & Hid & Hm).
  destruct Hno as [Hcards Hgen]; [by rewrite Hcloze, Hnone|].
  assert (Hnone' : has_cards (db (deck w')) (n_id (self w')) = false).
  { unfold has_cards in *. by rewrite Hcards, Hid. }
  repeat split; [done|done|congruence|done|].
  intros mod2 r2 w2 Hflush2.
  destruct (flush_leaves_rest_alone_aux mod2 w' r2 w2 Hflush2) as (Hno2 & _).
  destruct Hno2 as [_ Hgen2]; [by rewrite Hnone', andb_false_r|].
  congruence.
Qed.

End cloze_more.

Lemma flush_cloze_sets_newlyAdded_witness :
  n_newlyAdded (self (Note.flush None (mkWorld Sample.deck_stale Sample.nc)).2) = Some false
  ∧ n_newlyAdded (self (Note.flush None (mkWorld Sample.deck_new Sample.nc)).2) = Some true.
Proof.
  split.
  - rewrite (flush_cloze_sets_newlyAdded None (mkWorld Sample.deck_stale Sample.nc)
               (Note.flush None (mkWorld Sample.deck_stale Sample.nc)).1
               (Note.flush None (mkWorld Sample.deck_stale Sample.nc)).2).
    + reflexivity.
    + reflexivity.
    + apply surjective_pairing.
  - rewrite (flush_cloze_sets_newlyAdded None (mkWorld Sample.deck_new Sample.nc)
               (Note.flush None (mkWorld Sample.deck_new Sample.nc)).1
               (Note.flush None (mkWorld Sample.deck_new Sample.nc)).2).
    + reflexivity.
    + reflexivity.
    + apply surjective_pairing.
Defined.

Lemma flush_without_cards_never_requests_witness :
  genCards_calls
    (deck (Note.flush None (Note.flush None (mkWorld Sample.deck_new Sample.nc)).2).2)
  = []
  ∧ cards (db (deck (Note.flush None (mkWorld Sample.deck_new Sample.nc)).2)) = [].
Proof.
  destruct (flush_without_cards_never_requests None (mkWorld Sample.deck_new Sample.nc)
              (Note.flush None (mkWorld Sample.deck_new Sample.nc)).1
              (Note.flush None (mkWorld Sample.deck_new Sample.nc)).2)
    as (_ & Hcards & _ & _ & Hagain).
  - reflexivity.
  - reflexivity.
  - apply surjective_pairing.
  - split; [|exact Hcards].
    apply (Hagain None
             (Note.flush None (Note.flush None (mkWorld Sample.deck_new Sample.nc)).2).1).
    apply surjective_pairing.
Defined.

(** ** Tags: adding and removing *)

(** [delTag], run to its end. *)
Lemma delTag_run `{Casing} (tag : string) (w : World) :
  Note.delTag tag w =
  (Ret tt,
   mkWorld (deck w)
     (set_tags (filter (λ t, lower t ≠ lower tag) (n_tags (self w))) (self w))).
Proof.
  unfold Note.delTag. erewrite M_bind_ret by reflexivity.
  by rewrite (delTag_loop tag (n_tags (self w)) [] w).
Qed.

Lemma filter_lower_idemp `{Casing} (tag : string) (l : list string) :
  filter (λ t, lower t ≠ lower tag) (filter (λ t, lower t ≠ lower tag) l)
  = filter (λ t, lower t ≠ lower tag) l.
Proof.
  induction l as [|x l IH]; [done|].
  destruct (decide (lower x = lower tag)) as [Hx|Hx].
  - by rewrite (filter_cons_False _ x l) by tauto.
  - rewrite (filter_cons_True _ x l) by done.
    rewrite filter_cons_True by done. by rewrite IH.
Qed.

Lemma filter_lower_all `{Casing} (tag : string) (l : list string) :
  Forall (λ t, lower t ≠ lower tag) l →
  filter (λ t, lower t ≠ lower tag) l = l.
Proof.
  induction 1 as [|x l Hx _ IH]; [done|].
  rewrite filter_cons_True by done. by rewrite IH.
Qed.

(** X12. [addTag] appends without looking at what is there, and a later
    [delTag] of the same tag in any spelling of case undoes it together
    with every earlier match: [addTag(t)] followed by [delTag(t')], for
    [t] and [t'] that [lower()] makes equal, leaves the note as
    [delTag(t')] alone would. *)
Theorem addTag_then_delTag `{Casing} (t t' : string) (w : World) :
  lower t = lower t' →
  (Note.addTag t ≫= λ _, Note.delTag t') w = Note.delTag t' w.
Proof.
  intros Heq.
  erewrite M_bind_ret by reflexivity.
  rewrite !delTag_run. cbn [deck self n_tags set_tags].
  rewrite filter_app, filter_cons_False, filter_nil, app_nil_r; [|tauto].
  by destruct w as [d []].
Qed.

(** X13. [delTag] of a tag that [lower()] makes equal to none of the
    note's tags changes nothing and does not raise; and removing the
    same tag a second time changes nothing more. *)
Theorem delTag_absent_and_twice `{Casing} (tag : string) (w : World) :
  (Forall (λ t, lower t ≠ lower tag) (n_tags (self w)) →
     Note.delTag tag w = (Ret tt, w))
  ∧ (Note.delTag tag ≫= λ _, Note.delTag tag) w = Note.delTag tag w.
Proof.
  split.
  - intros Hall. rewrite delTag_run.
    rewrite filter_lower_all by done.
    by rewrite set_tags_same, world_eta.
  - erewrite M_bind_ret by apply delTag_run.
    rewrite !delTag_run. cbn [deck self n_tags set_tags].
    rewrite filter_lower_idemp. by destruct w as [d []].
Qed.

Lemma addTag_then_delTag_witness :
  ∃ w', (Note.addTag "BAR" ≫= λ _, Note.delTag "bar")
          (mkWorld Sample.empty_deck Sample.n1) = (Ret tt, w')
        ∧ n_tags (self w') = ["foo"; "FOO"].
Proof.
  eexists. split.
  - rewrite (addTag_then_delTag "BAR" "bar" (mkWorld Sample.empty_deck Sample.n1)).
    + apply delTag_run.
    + reflexivity.
  - vm_compute. reflexivity.
Defined.

Lemma delTag_absent_and_twice_witness :
  Note.delTag "baz" (mkWorld Sample.empty_deck Sample.n1)
  = (Ret tt, mkWorld Sample.empty_deck Sample.n1).
Proof.
  destruct (delTag_absent_and_twice "baz" (mkWorld Sample.empty_deck Sample.n1))
    as [Habsent _].
  apply Habsent. simpl. repeat constructor; vm_compute; discriminate.
Defined.

(** ** Dict interface: reading back, bounds, listings *)

(** X14. What [note[key] = value] stores, [note[key]] reads back; and a
    name bound to another position reads what it read before. *)
Theorem getitem_after_setitem (key value : string) (w w' : World) :
  Note.__setitem__ key value w = (Ret tt, w') →
  Note.__getitem__ (self w') key = Ret value
  ∧ ∀ key' ord ord' conf conf',
      n_fmap (self w) !! key = Some (ord, conf) →
      n_fmap (self w) !! key' = Some (ord', conf') →
      ord' ≠ ord →
      Note.__getitem__ (self w') key' = Note.__getitem__ (self w) key'.
Proof.
  unfold Note.__setitem__, Note.__getitem__, Note._fieldOrd.
  unfold get_self, lift, modify_self, mbind, M_bind.
  destruct (n_fmap (self w) !! key) as [[ord conf]|] eqn:Hk; [|done]. cbn.
  case_bool_decide as Hlt; [|done].
  intros [= <-]. cbn. rewrite Hk. cbn. split.
  - apply getindex_lookup. by apply list_lookup_insert_eq.
  - intros key' ord0 ord' conf0 conf' [= <- <-] Hk' Hne.
    rewrite Hk'. cbn. unfold getindex.
    by rewrite list_lookup_insert_ne.
Qed.

(** X15. A name whose ordinal is no position of [fields] is read and
    written with [IndexError]: a write never extends [fields] and, when
    it fails, changes nothing. *)
Theorem getitem_setitem_out_of_range (key value : string) (w : World) ord conf :
  n_fmap (self w) !! key = Some (ord, conf) →
  (length (n_fields (self w)) ≤ ord)%nat →
  Note.__getitem__ (self w) key = Raise IndexError
  ∧ Note.__setitem__ key value w = (Raise IndexError, w).
Proof.
  intros Hk Hlen.
  unfold Note.__setitem__, Note.__getitem__, Note._fieldOrd.
  unfold get_self, lift, modify_self, mbind, M_bind, getindex.
  rewrite Hk. cbn. rewrite (lookup_ge_None_2 _ _ Hlen).
  split; [done|]. rewrite bool_decide_eq_false_2; [done|lia].
Qed.

(** X16. [keys()] lists exactly the names [get] and [set] accept, each
    once: a name is in [keys()] if and only if [_fieldOrd] returns for
    it, and a name outside raises [KeyError]. *)
Theorem keys_are_the_accepted_names (n : Note) :
  NoDup (Note.keys n)
  ∧ ∀ name,
      (name ∈ Note.keys n ↔ ∃ ord, Note._fieldOrd n name = Ret ord)
      ∧ (name ∉ Note.keys n ↔ Note._fieldOrd n name = Raise (KeyError name)).
Proof.
  split; [apply NoDup_fst_map_to_list|].
  intros name.
  assert (Hin : name ∈ Note.keys n ↔ is_Some (n_fmap n !! name)).
  { unfold Note.keys. rewrite list_elem_of_fmap. split.
    - intros ([k v] & -> & Hkv%elem_of_map_to_list). by eexists.
    - intros [v Hv]. exists (name, v). split; [done|]. by apply elem_of_map_to_list. }
  unfold Note._fieldOrd. rewrite Hin.
  destruct (n_fmap n !! name) as [v|]; split; split;
    try done; try (by eexists); try (by intros [? ?]).
  intros Hnot. exfalso. apply Hnot. by eexists.
Qed.

(** ** Completeness and problems *)

(** X17. [fieldComplete(name)] is falsy exactly when the field is
    required and its value is the empty string. For a required field it
    returns the value itself rather than a boolean; for any other field
    it returns [True] without reading the value; on a name the field map
    does not define it raises [KeyError], as [fieldUnique] does. *)
Theorem fieldComplete_falsy_iff (d : Deck) `{Collaborators} (n : Note) (name : string) :
  (∀ ord conf v,
     n_fmap n !! name = Some (ord, conf) →
     n_fields n !! ord = Some v →
     ∃ c, Note.fieldComplete n name = Ret c
          ∧ (truthy c = false ↔ f_req conf = true ∧ v = "")
          ∧ (f_req conf = true → c = PyStr v)
          ∧ (f_req conf = false → c = PyBool true))
  ∧ (∀ ord conf,
       n_fmap n !! name = Some (ord, conf) → f_req conf = false →
       Note.fieldComplete n name = Ret (PyBool true))
  ∧ (n_fmap n !! name = None →
       Note.fieldComplete n name = Raise (KeyError name)
       ∧ Note.fieldUnique d n name = Raise (KeyError name)).
Proof.
  split; [|split].
  - intros ord conf v Hk Hv.
    unfold Note.fieldComplete, Note.__getitem__, Note._fieldOrd. rewrite Hk.
    destruct (f_req conf); cbn.
    + rewrite (getindex_lookup _ _ _ Hv). cbn. eexists. split; [done|]. cbn.
      split; [|done]. split.
      * intros Ht. split; [done|]. by apply truthy_str_false.
      * intros [_ ->]. done.
    + eexists. split; [done|]. cbn. split; [|done]. split; [done|]. by intros [? _].
  - intros ord conf Hk Hreq. unfold Note.fieldComplete. by rewrite Hk, Hreq.
  - intros Hk. unfold Note.fieldComplete, Note.fieldUnique. by rewrite Hk.
Qed.

Lemma getitem_after_setitem_witness :
  Note.__getitem__
    (self (Note.__setitem__ "Back" "x" (mkWorld Sample.empty_deck Sample.n1)).2) "Back"
  = Ret "x"
  ∧ Note.__getitem__
      (self (Note.__setitem__ "Back" "x" (mkWorld Sample.empty_deck Sample.n1)).2) "Front"
    = Ret "hello".
Proof.
  destruct (getitem_after_setitem "Back" "x" (mkWorld Sample.empty_deck Sample.n1)
              (Note.__setitem__ "Back" "x" (mkWorld Sample.empty_deck Sample.n1)).2)
    as [Hsame Hother].
  - vm_compute. reflexivity.
  - split; [exact Hsame|].
    rewrite (Hother "Front" 1%nat 0%nat Sample.back Sample.front).
    + vm_compute. reflexivity.
    + vm_compute. reflexivity.
    + vm_compute. reflexivity.
    + lia.
Defined.

Lemma getitem_setitem_out_of_range_witness :
  Note.__getitem__ Sample.n_short "Extra" = Raise IndexError
  ∧ Note.__setitem__ "Extra" "x" (mkWorld Sample.empty_deck Sample.n_short)
    = (Raise IndexError, mkWorld Sample.empty_deck Sample.n_short).
Proof.
  apply (getitem_setitem_out_of_range "Extra" "x"
           (mkWorld Sample.empty_deck Sample.n_short) 5%nat (mkField "Extra" true false)).
  - vm_compute. reflexivity.
  - simpl. lia.
Defined.

Lemma fieldComplete_falsy_iff_witness :
  (∃ c, Note.fieldComplete Sample.n_blank "Front" = Ret c ∧ truthy c = false)
  ∧ Note.fieldComplete Sample.n1 "Nope" = Raise (KeyError "Nope").
Proof.
  destruct (fieldComplete_falsy_iff Sample.empty_deck Sample.n_blank "Front")
    as (Hdef & _ & _).
  destruct (fieldComplete_falsy_iff Sample.empty_deck Sample.n1 "Nope")
    as (_ & _ & Hunknown).
  split.
  - destruct (Hdef 0%nat Sample.front "") as (c & Hc & Hiff & _).
    + vm_compute. reflexivity.
    + reflexivity.
    + exists c. split; [exact Hc|]. apply Hiff. split; reflexivity.
  - apply Hunknown. vm_compute. reflexivity.
Defined.

Section problems_more.
Context `{Collaborators}.

(** [problems], from what the loop body returns for each item. *)
Lemma problems_of_items (d : Deck) (self : Note)
    (kind : string * (nat * Field) → option string) :
  Note.fmap_contiguous self = true →
  (∀ item, item ∈ map_to_list (n_fmap self) →
           Note.problem d self item = Ret (item.2.1, kind item)) →
  ∃ l, Note.problems d self = Ret l
       ∧ length l = size (n_fmap self)
       ∧ ∀ name ord conf,
           n_fmap self !! name = Some (ord, conf) →
           l !! ord = Some (kind (name, (ord, conf))).
Proof.
  intros Hcont Hitem.
  destruct (mapM_total (Note.problem d self) (map_to_list (n_fmap self))) as [ds Hds].
  { intros item Hin. rewrite (Hitem item Hin). by eexists. }
  pose proof (proj1 (mapM_Ret _ _ _) Hds) as Hall.
  assert (Hfst : ds.*1 = (map_to_list (n_fmap self)).*2.*1).
  { clear Hds. induction Hall as [|item y items ys Hy _ IH]; [done|].
    rewrite !fmap_cons, IH.
    - f_equal. rewrite Hitem in Hy by (apply elem_of_cons; by left).
      by injection Hy as <-.
    - intros i Hi. apply Hitem, elem_of_cons. by right. }
  exists (sorted ds).*2. split; [|split].
  - unfold Note.problems. by rewrite Hds.
  - rewrite length_fmap. unfold sorted. rewrite merge_sort_Permutation.
    rewrite <- (Forall2_length _ _ _ Hall). apply length_map_to_list.
  - intros name ord conf Hk.
    pose proof Hk as Hin. apply elem_of_map_to_list in Hin.
    pose proof (Hitem _ Hin) as Hp. cbn [fst snd] in Hp.
    apply list_elem_of_lookup in Hin as [i Hi].
    destruct (Forall2_lookup_l _ _ _ _ _ Hall Hi) as (y & Hy & Hpy).
    rewrite Hp in Hpy. injection Hpy as <-.
    rewrite list_lookup_fmap.
    erewrite sorted_at_ord; [done|done|by rewrite Hfst|].
    by eapply list_elem_of_lookup_2.
Qed.

Lemma fieldUnique_empty (d : Deck) (self : Note) name ord conf :
  n_fmap self !! name = Some (ord, conf) →
  n_fields self !! ord = Some "" →
  Note.fieldUnique d self name = Ret true.
Proof.
  intros Hk Hv. unfold Note.fieldUnique, Note.__getitem__, Note._fieldOrd.
  rewrite Hk. destruct (f_uniq conf); [|done]. cbn.
  by rewrite (getindex_lookup _ _ _ Hv).
Qed.

(** X18. On a note whose fields are all empty, as a new note is,
    [problems()] consults no other note: whatever the deck holds, it
    returns "required" at the ordinal of every required field and [None]
    at every other, and never "unique". *)
Theorem problems_of_empty_note (d : Deck) (self : Note) :
  Note.fmap_contiguous self = true →
  Note.ords_in_range self = true →
  Forall (λ v, v = "") (n_fields self) →
  ∃ l, Note.problems d self = Ret l
       ∧ length l = size (n_fmap self)
       ∧ ∀ name ord conf,
           n_fmap self !! name = Some (ord, conf) →
           l !! ord = Some (if f_req conf then Some "required" else None).
Proof.
  intros Hcont Hrange Hempty.
  apply (problems_of_items d self
           (λ item, if f_req item.2.2 then Some "required" else None)); [done|].
  intros [name [ord conf]] Hk%elem_of_map_to_list. cbn [fst snd].
  destruct (ords_in_range_lookup self name ord conf Hrange Hk) as [v Hv].
  assert (v = "") as ->.
  { rewrite Forall_forall in Hempty. apply Hempty.
    by eapply list_elem_of_lookup_2. }
  rewrite (problem_run d self name ord conf true "") by
    (done || by eapply fieldUnique_empty).
  cbn. by destruct (f_req conf).
Qed.

End problems_more.

Lemma problems_of_empty_note_witness :
  ∃ l, Note.problems Sample.deck1 Sample.n_blank = Ret l
       ∧ l !! 0%nat = Some (Some "required") ∧ l !! 1%nat = Some None.
Proof.
  destruct (problems_of_empty_note Sample.deck1 Sample.n_blank) as (l & Hl & _ & Hpos).
  - vm_compute. reflexivity.
  - vm_compute. reflexivity.
  - simpl. repeat constructor.
  - exists l. split; [exact Hl|]. split.
    + rewrite (Hpos "Front" 0%nat Sample.front); [reflexivity|].
      vm_compute. reflexivity.
    + rewrite (Hpos "Back" 1%nat Sample.back); [reflexivity|].
      vm_compute. reflexivity.
Defined.

(** ** [items()] *)

Section items_more.
Context `{DictOrder}.

#[local] Instance value_le_total : Total Note.value_le.
Proof.
  intros [a x] [b y]. unfold Note.value_le, Note.value_leb. cbn [fst snd].
  destruct (Nat.ltb_spec a b) as [Hab|Hab]; [by left|].
  destruct (Nat.ltb_spec b a) as [Hba|Hba]; [by right|].
  assert (a = b) as -> by lia. rewrite Nat.eqb_refl. cbn.
  apply dict_leb_total.
Qed.

Lemma value_le_fst (x y : nat * Field) : Note.value_le x y → (x.1 ≤ y.1)%nat.
Proof.
  unfold Note.value_le, Note.value_leb.
  intros [Hlt|[Heq _]%andb_true_iff]%orb_true_iff.
  - apply Nat.ltb_lt in Hlt. lia.
  - apply Nat.eqb_eq in Heq. lia.
Qed.

(** X19. For a note whose field ordinals are 0, 1, 2, ... and positions
    of [fields], [items()] returns one pair per field definition, in
    ascending order of ordinal: the pair at index [ord] is the [name]
    entry of the field definition with that ordinal and the string
    stored at that position. *)
Theorem items_in_ordinal_order (n : Note) :
  Note.fmap_contiguous n = true →
  Note.ords_in_range n = true →
  ∃ l, Note.items n = Ret l
       ∧ length l = size (n_fmap n)
       ∧ ∀ name ord conf,
           n_fmap n !! name = Some (ord, conf) →
           ∃ v, n_fields n !! ord = Some v
                ∧ l !! ord = Some (f_name conf, v).
Proof.
  intros Hcont Hrange.
  set (vs := (map_to_list (n_fmap n)).*2).
  set (sv := merge_sort Note.value_le vs).
  assert (Hperm : sv ≡ₚ vs) by apply merge_sort_Permutation.
  assert (Hfst : sv.*1 = seq 0 (size (n_fmap n))).
  { apply bool_decide_eq_true_1 in Hcont. rewrite <- Hcont.
    apply (Sorted_unique (≤)%nat).
    - apply (Sorted_fmap _ Note.value_le); [apply value_le_fst|].
      apply Sorted_merge_sort, _.
    - apply Sorted_merge_sort, _.
    - rewrite merge_sort_Permutation. by rewrite Hperm. }
  assert (Hin_range : ∀ v, v ∈ sv → ∃ val, n_fields n !! v.1 = Some val).
  { intros v Hv. rewrite Hperm in Hv. apply lookup_lt_is_Some_2.
    unfold Note.ords_in_range in Hrange. rewrite forallb_forall in Hrange.
    apply list_elem_of_In, Hrange in Hv. by apply bool_decide_eq_true_1 in Hv. }
  destruct (mapM_total
              (λ v : nat * Field,
                 val ← getindex (n_fields n) v.1; Ret (f_name v.2, val)) sv)
    as [l Hl].
  { intros v Hv. destruct (Hin_range v Hv) as [val Hval].
    rewrite (getindex_lookup _ _ _ Hval). by eexists. }
  pose proof (proj1 (mapM_Ret _ _ _) Hl) as Hall.
  exists l. split; [exact Hl|]. split.
  - rewrite <- (Forall2_length _ _ _ Hall).
    rewrite (Permutation_length Hperm). unfold vs.
    rewrite length_fmap. apply length_map_to_list.
  - intros name ord conf Hk.
    assert (Hv : (ord, conf) ∈ sv).
    { rewrite Hperm. apply list_elem_of_fmap. exists (name, (ord, conf)).
      split; [done|]. by apply elem_of_map_to_list. }
    destruct (Hin_range _ Hv) as [val Hval]. cbn [fst] in Hval.
    exists val. split; [done|].
    apply list_elem_of_lookup in Hv as [j Hj].
    assert (Hj1 : sv.*1 !! j = Some ord) by by rewrite list_lookup_fmap, Hj.
    rewrite Hfst in Hj1. apply lookup_seq in Hj1 as [Hord _].
    cbn in Hord. subst ord.
    destruct (Forall2_lookup_l _ _ _ _ _ Hall Hj) as (y & Hy & Hpy).
    cbn [fst snd] in Hpy. rewrite (getindex_lookup _ _ _ Hval) in Hpy.
    cbn in Hpy. injection Hpy as <-. exact Hy.
Qed.

End items_more.

Lemma items_in_ordinal_order_witness :
  Note.items Sample.n1 = Ret [("Front", "hello"); ("Back", "world")].
Proof.
  destruct (items_in_ordinal_order Sample.n1) as (l & Hl & Hlen & Hpos).
  - vm_compute. reflexivity.
  - vm_compute. reflexivity.
  - rewrite Hl. f_equal.
    destruct (Hpos "Front" 0%nat Sample.front) as (v0 & Hv0 & H0);
      [vm_compute; reflexivity|].
    destruct (Hpos "Back" 1%nat Sample.back) as (v1 & Hv1 & H1);
      [vm_compute; reflexivity|].
    vm_compute in Hv0, Hv1, Hlen. injection Hv0 as <-. injection Hv1 as <-.
    destruct l as [|a [|b [|c l]]]; try discriminate Hlen.
    cbn in H0, H1. injection H0 as ->. injection H1 as ->. reflexivity.
Defined.
